(** * Formik: validation orchestration and form-state reconciliation

    A shallow embedding of [src/Formik.tsx]: the schema-error conversion
    [yupToFormErrors], the schema call [validateYupSchema], the array-aware
    merge [arrayMerge] used with [deepmerge], and the [Formik] state holder
    with its validation caches, submit and reset operations. *)

From Stdlib Require Import ZArith Ascii String Lia.
From stdpp Require Import base list strings pretty.

Local Open Scope string_scope.
Local Open Scope list_scope.

(** ** JavaScript values *)

(** Primitive values.  Numbers are integers here: error trees, touched trees
    and form values never rely on fractional arithmetic in this file. *)
Inductive prim :=
| PUndefined
| PNull
| PBool (b : bool)
| PNum (n : Z)
| PStr (s : string).

(** A value by structure: a primitive, a plain object (own enumerable
    properties in enumeration order) or an array (a hole reads as
    [undefined]). *)
#[local] Unset Elimination Schemes.
Inductive tree :=
| Prim (p : prim)
| Obj (fields : list (string * tree))
| Arr (elems : list tree).
#[local] Set Elimination Schemes.

Definition undefined : tree := Prim PUndefined.
Definition str (s : string) : tree := Prim (PStr s).

Definition prim_eqb (p q : prim) : bool :=
  match p, q with
  | PUndefined, PUndefined => true
  | PNull, PNull => true
  | PBool a, PBool b => Bool.eqb a b
  | PNum a, PNum b => Z.eqb a b
  | PStr a, PStr b => String.eqb a b
  | _, _ => false
  end.

(** [!!v] in JavaScript. *)
Definition truthy (v : tree) : bool :=
  match v with
  | Prim PUndefined | Prim PNull => false
  | Prim (PBool b) => b
  | Prim (PNum n) => negb (Z.eqb n 0)
  | Prim (PStr s) => negb (String.eqb s "")
  | Obj _ | Arr _ => true
  end.

(** [typeof v === 'undefined'] *)
Definition is_undefined (v : tree) : bool :=
  match v with Prim PUndefined => true | _ => false end.

Definition isArray (v : tree) : bool :=
  match v with Arr _ => true | _ => false end.

Definition isObject (v : tree) : bool :=
  match v with Obj _ => true | _ => false end.

(** ** Property access *)

Definition is_digit (c : ascii) : bool :=
  let n := nat_of_ascii c in (48 <=? n)%nat && (n <=? 57)%nat.

Fixpoint digits_value (s : string) (acc : nat) : option nat :=
  match s with
  | EmptyString => Some acc
  | String c s' =>
      if is_digit c
      then digits_value s' (10 * acc + (nat_of_ascii c - 48))
      else None
  end.

(** A property name is an array index when it is a canonical decimal
    numeral: ["0"], or digits without a leading zero. *)
Definition as_index (k : string) : option nat :=
  match k with
  | EmptyString => None
  | String c rest =>
      if Ascii.eqb c "0"%char
      then (if String.eqb rest "" then Some 0 else None)
      else digits_value k 0
  end.

Fixpoint assoc_get {A} (k : string) (fields : list (string * A)) : option A :=
  match fields with
  | [] => None
  | (k', v) :: rest => if String.eqb k k' then Some v else assoc_get k rest
  end.

(** [dest[k] = v] on a plain object: an existing property keeps its place. *)
Fixpoint assoc_set {A} (k : string) (v : A) (fields : list (string * A))
  : list (string * A) :=
  match fields with
  | [] => [(k, v)]
  | (k', v') :: rest =>
      if String.eqb k k' then (k, v) :: rest else (k', v') :: assoc_set k v rest
  end.

(** [delete dest[k]] *)
Definition assoc_delete {A} (k : string) (fields : list (string * A))
  : list (string * A) :=
  filter (fun kv => negb (String.eqb k (fst kv))) fields.

(** [arr[i]]: out of range reads [undefined]. *)
Definition js_index (l : list tree) (i : nat) : tree :=
  default undefined (l !! i).

(** [arr[i] = v]: stdpp's insert leaves a short list alone, JavaScript grows
    the array, so the growth is written out. *)
Definition js_set_index (l : list tree) (i : nat) (v : tree) : list tree :=
  if (i <? length l)%nat then <[i := v]> l
  else l ++ replicate (i - length l) undefined ++ [v].

(** The own property [k] of [v], [undefined] when [v] has none; this is
    [v[k]] for every [k] that is not the name of an inherited member. *)
Definition get_prop (v : tree) (k : string) : tree :=
  match v with
  | Obj fields => default undefined (assoc_get k fields)
  | Arr elems =>
      match as_index k with
      | Some i => js_index elems i
      | None => undefined
      end
  | Prim _ => undefined
  end.

Definition keys {A} (fields : list (string * A)) : list string :=
  map fst fields.

(** [Object.keys(v)] *)
Definition object_keys (v : tree) : list string :=
  match v with
  | Obj fields => keys fields
  | Arr elems => map (fun i => pretty i) (seq 0 (length elems))
  | Prim _ => []
  end.

(** An array index: a canonical numeral below [2^32 - 1]. *)
Definition arrayIndex (k : string) : option nat :=
  if (String.length k <? 10)%nat
     || ((String.length k =? 10)%nat && String.ltb k "4294967295")
  then as_index k else None.

Fixpoint insertByIndex (i : nat) (k : string) (sorted : list (nat * string))
  : list (nat * string) :=
  match sorted with
  | [] => [(i, k)]
  | (j, k') :: rest =>
      if (i <=? j)%nat then (i, k) :: sorted
      else (j, k') :: insertByIndex i k rest
  end.

(** The order in which [Object.keys] lists the own property names [ks] of
    an object, given in the order of their creation: first the array
    indices in ascending order, then the other names as created. *)
Definition ownPropertyKeys (ks : list string) : list string :=
  map snd
    (foldr (fun k sorted =>
              match arrayIndex k with
              | Some i => insertByIndex i k sorted
              | None => sorted
              end) [] ks)
  ++ filter (fun k => arrayIndex k = None) ks.

(** [emptyObject]: the frozen [{}] shared by the whole module. *)
Definition emptyObject : tree := Obj [].

(** ** Path-addressed store *)

Definition is_sep (c : ascii) : bool :=
  Ascii.eqb c "."%char || Ascii.eqb c "["%char || Ascii.eqb c "]"%char.

Fixpoint split_path (s : string) : list string :=
  match s with
  | EmptyString => [EmptyString]
  | String c s' =>
      if is_sep c then EmptyString :: split_path s'
      else match split_path s' with
           | seg :: rest => String c seg :: rest
           | [] => [String c EmptyString]
           end
  end.

(** Modelled from the spec: [toPath] (utils, not under src/).  A path is "a
    string addressing a nested field, e.g. [address.city] or
    [items[0].name]": segments are separated by dots and brackets. *)
Definition toPath (path : string) : list string :=
  filter (fun seg => negb (String.eqb seg "")) (split_path path).

Fixpoint getIn_path (v : tree) (path : list string) : tree :=
  match path with
  | [] => v
  | k :: rest => if truthy v then getIn_path (get_prop v k) rest else v
  end.

(** Modelled from the spec: [getIn] (utils, not under src/), 4.1:
    "returns [undefined] for missing intermediate segments, never throws". *)
Definition getIn (v : tree) (path : string) : tree :=
  getIn_path v (toPath path).

(** The node a segment writes into: the existing container when the segment
    can address it, else a fresh one (an array for an index, an object for a
    name). *)
Definition set_prop (v : tree) (k : string) (x : tree) : tree :=
  match v, as_index k with
  | Obj fields, _ => Obj (assoc_set k x fields)
  | Arr elems, Some i => Arr (js_set_index elems i x)
  | _, Some i => Arr (js_set_index [] i x)
  | _, None => Obj [(k, x)]
  end.

Fixpoint setIn_path (v : tree) (path : list string) (x : tree) : tree :=
  match path with
  | [] => x
  | k :: rest => set_prop v k (setIn_path (get_prop v k) rest x)
  end.

(** Modelled from the spec: [setIn] (utils, not under src/), 4.1: "returns a
    new root with only the path's segments shallow-cloned; all other
    substructure is shared". *)
Definition setIn (v : tree) (path : string) (x : tree) : tree :=
  setIn_path v (toPath path) x.

(** ** Schema errors: [yupToFormErrors] *)

(** One entry of a schema error's [inner] list. *)
Record InnerError := { err_path : string; err_message : string }.

(** The schema library's validation error, as far as the module reads it. *)
Record YupError := {
  path : string;
  message : string;
  inner : list InnerError;
}.

(** The members a plain object inherits from [Object.prototype]. *)
Definition inheritedMembers : list string :=
  ["constructor"; "hasOwnProperty"; "isPrototypeOf"; "propertyIsEnumerable";
   "toLocaleString"; "toString"; "valueOf"; "__proto__";
   "__defineGetter__"; "__defineSetter__"; "__lookupGetter__";
   "__lookupSetter__"].

(** [!!errors[k]] on a plain object: its own property when it has one, else
    the inherited member of that name, which is a function or an object. *)
Definition memberIsTruthy (errors : tree) (k : string) : bool :=
  match errors with
  | Obj fields =>
      match assoc_get k fields with
      | Some v => truthy v
      | None => bool_decide (k ∈ inheritedMembers)
      end
  | _ => truthy (get_prop errors k)
  end.

(** Transform Yup ValidationError to a more usable object. *)
Definition yupToFormErrors (yupError : YupError) : tree :=
  let errors := emptyObject in
  if (length (inner yupError) =? 0)%nat then
    setIn errors (path yupError) (str (message yupError))
  else
    fold_left
      (fun errors err =>
         if negb (memberIsTruthy errors (err_path err))
         then setIn errors (err_path err) (str (err_message err))
         else errors)
      (inner yupError) errors.

(** ** Schema validation: [validateYupSchema] *)

(** The object store of one call: a location is an index, allocation
    appends. *)
Abbreviation store := (list tree).
Abbreviation loc := nat.

Definition alloc (h : store) (v : tree) : store * loc := (h ++ [v], length h).
Definition deref (h : store) (l : loc) : tree := default undefined (h !! l).
Definition assign (h : store) (l : loc) (v : tree) : store := <[l := v]> h.

Record ValidateOptions := { abortEarly : bool; context : tree }.

(** What a schema's validate operation settles to. *)
Inductive SchemaResult :=
| Valid (v : tree)
| Invalid (e : YupError).

(** The externally supplied schema object: its identity and its two
    validate operations. *)
Record Schema := {
  schema_ref : nat;
  schema_validate : tree -> ValidateOptions -> SchemaResult;
  schema_validateSync : tree -> ValidateOptions -> SchemaResult;
}.

(** [values[key] !== '' ? values[key] : undefined] *)
Definition blank_to_undefined (v : tree) : tree :=
  match v with
  | Prim (PStr s) => if String.eqb s "" then undefined else v
  | _ => v
  end.

(** The [for (let k in values)] loop: every key met is an own property of
    [values] (inherited ones are not modelled), so the [hasOwnProperty] test
    passes. *)
Definition validateYupSchema_loop (values validateData : loc) (h : store)
  : store :=
  fold_left
    (fun h key =>
       assign h validateData
         (set_prop (deref h validateData) key
            (blank_to_undefined (get_prop (deref h values) key))))
    (object_keys (deref h values)) h.

(** Validate a yup schema. *)
Definition validateYupSchema (h : store) (values : loc) (schema : Schema)
    (sync : bool) (context : tree) : store * SchemaResult :=
  let '(h, validateData) := alloc h (Obj []) in
  let h := validateYupSchema_loop values validateData h in
  (h, (if sync then schema_validateSync schema else schema_validate schema)
        (deref h validateData)
        {| abortEarly := false; context := context |}).

(** ** Array-aware deep merge: [deepmerge] with [arrayMerge] *)

(** The options [runValidations] passes are [{ arrayMerge }]: [clone] is the
    only other one read, and [isMergeableObject] is the library's default. *)
Record Options := { clone : option bool }.

(** [options.clone !== false] *)
Definition cloneRequested (options : Options) : bool :=
  match clone options with Some false => false | _ => true end.

(** The merge library's default test: a non-null object that is not a
    special one (none of those is modelled). *)
Definition isMergeableObject (v : tree) : bool :=
  match v with Obj _ | Arr _ => true | Prim _ => false end.

(** [a === b] where at least one side is a primitive; an object is equal to
    no primitive. *)
Definition strictEq (a b : tree) : bool :=
  match a, b with
  | Prim p, Prim q => prim_eqb p q
  | _, _ => false
  end.

(** [target.indexOf(e) === -1] *)
Definition indexOf_absent (target : list tree) (e : tree) : bool :=
  forallb (fun t => negb (strictEq t e)) target.

Definition emptyTarget (val : tree) : tree :=
  if isArray val then Arr [] else emptyObject.

Section MergeLoops.
Variable options : Options.
(** [cloneUnlessOtherwiseSpecified(_, options)] and [deepmerge(_, _, options)] *)
Variable cloneUnlessOtherwiseSpecified : tree -> tree.
Variable deepmerge : tree -> tree -> tree.

(** The body of [source.forEach] in [arrayMerge]: [i] is the index of the
    head of [source], [destination] the array built so far.  The lists are
    dense: every index of [source] is visited, an [undefined] entry
    included, so a source with a hole, which [forEach] skips, has no
    counterpart here. *)
Fixpoint arrayMerge_forEach (target source : list tree) (i : nat)
    (destination : list tree) : list tree :=
  match source with
  | [] => destination
  | e :: rest =>
      arrayMerge_forEach target rest (S i)
        (if is_undefined (js_index destination i) then
           let shouldClone := cloneRequested options && isMergeableObject e in
           js_set_index destination i
             (if shouldClone then deepmerge (emptyTarget e) e else e)
         else if isMergeableObject e then
           js_set_index destination i (deepmerge (js_index target i) e)
         else if indexOf_absent target e then
           destination ++ [e]
         else destination)
  end.

(** deepmerge array merging algorithm (src/Formik.tsx). *)
Definition arrayMerge_with (target source : list tree) : list tree :=
  let destination := target (* target.slice() *) in
  arrayMerge_forEach target source 0 destination.

(** Modelled from the spec: [mergeObject] of the merge library (not under
    src/), 4.4d: "for plain mapping nodes, recursively merge by key". *)
Definition mergeObject_with (target : tree) (source : list (string * tree))
  : list (string * tree) :=
  let destination :=
    match target with
    | Obj tgt =>
        fold_left
          (fun destination '(key, tv) =>
             assoc_set key (cloneUnlessOtherwiseSpecified tv) destination)
          tgt []
    | _ => []
    end in
  fold_left
    (fun destination '(key, sv) =>
       if negb (isMergeableObject sv) || negb (truthy (get_prop target key))
       then assoc_set key (cloneUnlessOtherwiseSpecified sv) destination
       else assoc_set key (deepmerge (get_prop target key) sv) destination)
    source destination.
End MergeLoops.

(** [deepmerge(emptyTarget(value), value, options)], the copy that
    [cloneUnlessOtherwiseSpecified] makes; [deepmerge_emptyTarget] below
    shows it is that call. *)
Fixpoint cloneDeep (options : Options) (value : tree) {struct value} : tree :=
  let clone v :=
    if cloneRequested options && isMergeableObject v
    then cloneDeep options v else v in
  match value with
  | Arr src =>
      Arr (arrayMerge_with options (fun _ e => cloneDeep options e) [] src)
  | Obj src =>
      Obj (mergeObject_with clone (fun _ e => cloneDeep options e) emptyObject src)
  | Prim _ => emptyObject
  end.

Definition cloneUnlessOtherwiseSpecified (options : Options) (value : tree)
  : tree :=
  if cloneRequested options && isMergeableObject value
  then cloneDeep options value else value.

(** Modelled from the spec: [deepmerge] of the merge library (not under
    src/), 4.4d; arrays go to the [arrayMerge] of src/Formik.tsx, which is
    the [options.arrayMerge] of every call.  A primitive [source] has no own
    enumerable keys here (a text as the root source is not modelled), and
    the function is total: where the library reads a key of a [null] or
    [undefined] target and throws, the target counts as one without keys, so
    a result stands for the library's only where the library returns. *)
Fixpoint deepmerge (options : Options) (target source : tree) {struct source}
  : tree :=
  match source with
  | Arr src =>
      match target with
      | Arr tgt => Arr (arrayMerge_with options (deepmerge options) tgt src)
      | _ => cloneUnlessOtherwiseSpecified options source
      end
  | Obj src =>
      match target with
      | Arr _ => cloneUnlessOtherwiseSpecified options source
      | _ =>
          Obj (mergeObject_with (cloneUnlessOtherwiseSpecified options)
                 (deepmerge options) target src)
      end
  | Prim _ =>
      match target with
      | Arr _ => cloneUnlessOtherwiseSpecified options source
      | _ =>
          Obj (mergeObject_with (cloneUnlessOtherwiseSpecified options)
                 (deepmerge options) target [])
      end
  end.

(** deepmerge array merging algorithm (src/Formik.tsx). *)
Definition arrayMerge (target source : list tree) (options : Options)
  : list tree :=
  arrayMerge_with options (deepmerge options) target source.

(** [deepmerge.all(array, options)] *)
Definition deepmerge_all (array : list tree) (options : Options) : tree :=
  fold_left (deepmerge options) array (Obj []).

(** The options of the call in [runValidations]. *)
Definition formikMergeOptions : Options := {| clone := None |}.

(** ** Deep equality and leaf replacement *)

(** [isEqual] of react-fast-compare on the values modelled here: arrays by
    length and index, plain objects by key count and key. *)
Fixpoint isEqual (a b : tree) {struct a} : bool :=
  match a, b with
  | Prim p, Prim q => prim_eqb p q
  | Arr l, Arr m =>
      (length l =? length m)%nat &&
      (fix all (l m : list tree) {struct l} : bool :=
         match l, m with
         | x :: l', y :: m' => isEqual x y && all l' m'
         | _, _ => true
         end) l m
  | Obj f, Obj g =>
      (length f =? length g)%nat &&
      forallb
        (fun '(k, v) =>
           match assoc_get k g with
           | Some w => isEqual v w
           | None => false
           end) f
  | _, _ => false
  end.

(** Modelled from the spec: [setNestedObjectValues] (utils, not under src/),
    4.1: "recursively replaces every leaf value in a structure with a
    constant". *)
Fixpoint setNestedObjectValues (object : tree) (value : tree) : tree :=
  match object with
  | Obj f => Obj (map (fun '(k, v) => (k, setNestedObjectValues v value)) f)
  | Arr l => Arr (map (fun v => setNestedObjectValues v value) l)
  | Prim _ => value
  end.

(** ** Values with identity *)

(** What the holder passes around: a primitive, or a reference to an object
    whose content is never written after it is built ([setIn] copies, the
    shared [emptyObject] is frozen).  [===] on references compares [id]. *)
Inductive jsval :=
| JPrim (p : prim)
| JRef (id : nat) (content : tree).

Definition content (v : jsval) : tree :=
  match v with JPrim p => Prim p | JRef _ c => c end.

Definition js_undefined : jsval := JPrim PUndefined.

(** The module-level [emptyObject], as a reference: it owns id [0]. *)
Definition emptyObjectRef : jsval := JRef 0 emptyObject.

(** [a === b] *)
Definition strictEquals (a b : jsval) : bool :=
  match a, b with
  | JPrim p, JPrim q => prim_eqb p q
  | JRef i _, JRef j _ => (i =? j)%nat
  | _, _ => false
  end.

(** [PromiseOrValue<T>] of the results the holder builds: a value, or a
    promise (with its identity) and the value it fulfils with.  Every promise
    the holder derives has a rejection handler that turns the rejection into
    a value, so these never reject. *)
Inductive PromiseOrValue :=
| Value (v : jsval)
| Promise (id : nat) (v : jsval).

Definition isPromise (r : PromiseOrValue) : bool :=
  match r with Promise _ _ => true | Value _ => false end.

(** What awaiting the result yields. *)
Definition settled (r : PromiseOrValue) : jsval :=
  match r with Value v => v | Promise _ v => v end.

(** [a === b] on results. *)
Definition sameResult (a b : PromiseOrValue) : bool :=
  match a, b with
  | Value x, Value y => strictEquals x y
  | Promise i _, Promise j _ => (i =? j)%nat
  | _, _ => false
  end.

(** What user code hands back: a value, or a promise of its own that
    settles either way. *)
Inductive Settled :=
| Fulfilled (v : jsval)
| Rejected (e : jsval).

Inductive UserResult :=
| Returned (v : jsval)
| Pending (id : nat) (s : Settled).

Inductive Completion :=
| Normal (r : UserResult)
| Throw (e : jsval).

(** User code may allocate: it is given the next free reference and hands
    back the next one.  Handlers that call back into the facade are not
    modelled. *)
Definition External (A : Type) : Type := nat -> A * nat.

(** ** Configuration, registered fields, state *)

(** A registered field component: [props.validate], when it is a function. *)
Record Field := { field_validate : option (tree -> External Completion) }.

Inductive SchemaProp :=
| SchemaObject (schema : Schema)
| SchemaFactory (factory : External Schema).

(** The Action Facade: the bound operations [getFormikActions] collects. *)
Definition FormikActions := list string.

Record FormikConfigBase := {
  initialValues : jsval;
  onSubmit : jsval -> FormikActions -> External unit;
  validate : option (jsval -> External UserResult);
  validationSchema : option SchemaProp;
  onReset : option (jsval -> FormikActions -> External UserResult);
  validateOnChange : bool;
  validateOnBlur : bool;
  enableReinitialize : bool;
}.

(** [isInitialValid]: a boolean, or a function of the props (here: of the
    props without this member). *)
Inductive IsInitialValid :=
| IVBool (b : bool)
| IVFun (f : FormikConfigBase -> bool).

Record FormikConfig := {
  base :> FormikConfigBase;
  isInitialValid : IsInitialValid;
}.

Record FormikState := {
  values : jsval;
  errors : jsval;
  touched : jsval;
  isSubmitting : bool;
  isValidating : bool;
  submitCount : nat;
  status : jsval;
  error : jsval;
}.

(** [ValidationResult<TResult>]: the key compared by identity, and the
    result. *)
Record ValidationResult (K R : Type) := {
  key : list K;
  result : R;
}.
Arguments key {K R} _.
Arguments result {K R} _.

(** The two components of [runValidationSchema]'s cache key. *)
Inductive YupKey :=
| KSchema (schema : Schema)
| KValues (values : jsval).

Definition sameYupKey (a b : YupKey) : bool :=
  match a, b with
  | KSchema s, KSchema t => (schema_ref s =? schema_ref t)%nat
  | KValues v, KValues w => strictEquals v w
  | _, _ => false
  end.

(** Calls that leave the module. *)
Inductive Event :=
| FieldValidate (field : string) (value : tree)
| SchemaValidate (schema : nat) (values : jsval)
| HandlerValidate (values : jsval)
| OnSubmit (values : jsval) (actions : FormikActions)
| OnReset (values : jsval) (actions : FormikActions).

(** The [Formik] instance, with the allocator and the record of outside
    calls.  [didMount] is the instance's own flag; [everMounted] is the
    model's record that [componentDidMount] has run on the instance, by which
    a component that was unmounted is told from one that is not mounted
    yet. *)
Record Formik := {
  props : FormikConfig;
  state : FormikState;
  this_initialValues : jsval;
  didMount : bool;
  everMounted : bool;
  fields : list (string * Field);
  lastValidationResults : option (ValidationResult PromiseOrValue jsval);
  lastYupValidationResult : option (ValidationResult YupKey PromiseOrValue);
  lastValidateHandlerResult : option (ValidationResult UserResult PromiseOrValue);
  next_ref : nat;
  trace : list Event;
}.

(** *** Field updates *)

Definition set_state (s : FormikState) (h : Formik) : Formik :=
  {| props := props h; state := s;
     this_initialValues := this_initialValues h; didMount := didMount h;
     everMounted := everMounted h;
     fields := fields h;
     lastValidationResults := lastValidationResults h;
     lastYupValidationResult := lastYupValidationResult h;
     lastValidateHandlerResult := lastValidateHandlerResult h;
     next_ref := next_ref h; trace := trace h |}.

Definition set_this_initialValues (v : jsval) (h : Formik) : Formik :=
  {| props := props h; state := state h;
     this_initialValues := v; didMount := didMount h;
     everMounted := everMounted h;
     fields := fields h;
     lastValidationResults := lastValidationResults h;
     lastYupValidationResult := lastYupValidationResult h;
     lastValidateHandlerResult := lastValidateHandlerResult h;
     next_ref := next_ref h; trace := trace h |}.

Definition set_didMount (b : bool) (h : Formik) : Formik :=
  {| props := props h; state := state h;
     this_initialValues := this_initialValues h; didMount := b;
     everMounted := everMounted h;
     fields := fields h;
     lastValidationResults := lastValidationResults h;
     lastYupValidationResult := lastYupValidationResult h;
     lastValidateHandlerResult := lastValidateHandlerResult h;
     next_ref := next_ref h; trace := trace h |}.

Definition set_everMounted (b : bool) (h : Formik) : Formik :=
  {| props := props h; state := state h;
     this_initialValues := this_initialValues h; didMount := didMount h;
     everMounted := b;
     fields := fields h;
     lastValidationResults := lastValidationResults h;
     lastYupValidationResult := lastYupValidationResult h;
     lastValidateHandlerResult := lastValidateHandlerResult h;
     next_ref := next_ref h; trace := trace h |}.

Definition set_fields (f : list (string * Field)) (h : Formik) : Formik :=
  {| props := props h; state := state h;
     this_initialValues := this_initialValues h; didMount := didMount h;
     everMounted := everMounted h;
     fields := f;
     lastValidationResults := lastValidationResults h;
     lastYupValidationResult := lastYupValidationResult h;
     lastValidateHandlerResult := lastValidateHandlerResult h;
     next_ref := next_ref h; trace := trace h |}.

Definition set_lastValidationResults
    (c : option (ValidationResult PromiseOrValue jsval)) (h : Formik)
  : Formik :=
  {| props := props h; state := state h;
     this_initialValues := this_initialValues h; didMount := didMount h;
     everMounted := everMounted h;
     fields := fields h;
     lastValidationResults := c;
     lastYupValidationResult := lastYupValidationResult h;
     lastValidateHandlerResult := lastValidateHandlerResult h;
     next_ref := next_ref h; trace := trace h |}.

Definition set_lastYupValidationResult
    (c : option (ValidationResult YupKey PromiseOrValue)) (h : Formik)
  : Formik :=
  {| props := props h; state := state h;
     this_initialValues := this_initialValues h; didMount := didMount h;
     everMounted := everMounted h;
     fields := fields h;
     lastValidationResults := lastValidationResults h;
     lastYupValidationResult := c;
     lastValidateHandlerResult := lastValidateHandlerResult h;
     next_ref := next_ref h; trace := trace h |}.

Definition set_lastValidateHandlerResult
    (c : option (ValidationResult UserResult PromiseOrValue)) (h : Formik)
  : Formik :=
  {| props := props h; state := state h;
     this_initialValues := this_initialValues h; didMount := didMount h;
     everMounted := everMounted h;
     fields := fields h;
     lastValidationResults := lastValidationResults h;
     lastYupValidationResult := lastYupValidationResult h;
     lastValidateHandlerResult := c;
     next_ref := next_ref h; trace := trace h |}.

Definition set_next_ref (n : nat) (h : Formik) : Formik :=
  {| props := props h; state := state h;
     this_initialValues := this_initialValues h; didMount := didMount h;
     everMounted := everMounted h;
     fields := fields h;
     lastValidationResults := lastValidationResults h;
     lastYupValidationResult := lastYupValidationResult h;
     lastValidateHandlerResult := lastValidateHandlerResult h;
     next_ref := n; trace := trace h |}.

Definition set_trace (t : list Event) (h : Formik) : Formik :=
  {| props := props h; state := state h;
     this_initialValues := this_initialValues h; didMount := didMount h;
     everMounted := everMounted h;
     fields := fields h;
     lastValidationResults := lastValidationResults h;
     lastYupValidationResult := lastYupValidationResult h;
     lastValidateHandlerResult := lastValidateHandlerResult h;
     next_ref := next_ref h; trace := t |}.

Definition with_values (v : jsval) (s : FormikState) : FormikState :=
  {| values := v; errors := errors s; touched := touched s;
     isSubmitting := isSubmitting s; isValidating := isValidating s;
     submitCount := submitCount s; status := status s; error := error s |}.

Definition with_errors (v : jsval) (s : FormikState) : FormikState :=
  {| values := values s; errors := v; touched := touched s;
     isSubmitting := isSubmitting s; isValidating := isValidating s;
     submitCount := submitCount s; status := status s; error := error s |}.

Definition with_touched (v : jsval) (s : FormikState) : FormikState :=
  {| values := values s; errors := errors s; touched := v;
     isSubmitting := isSubmitting s; isValidating := isValidating s;
     submitCount := submitCount s; status := status s; error := error s |}.

Definition with_isSubmitting (b : bool) (s : FormikState) : FormikState :=
  {| values := values s; errors := errors s; touched := touched s;
     isSubmitting := b; isValidating := isValidating s;
     submitCount := submitCount s; status := status s; error := error s |}.

Definition with_isValidating (b : bool) (s : FormikState) : FormikState :=
  {| values := values s; errors := errors s; touched := touched s;
     isSubmitting := isSubmitting s; isValidating := b;
     submitCount := submitCount s; status := status s; error := error s |}.

Definition with_submitCount (n : nat) (s : FormikState) : FormikState :=
  {| values := values s; errors := errors s; touched := touched s;
     isSubmitting := isSubmitting s; isValidating := isValidating s;
     submitCount := n; status := status s; error := error s |}.

Definition with_status (v : jsval) (s : FormikState) : FormikState :=
  {| values := values s; errors := errors s; touched := touched s;
     isSubmitting := isSubmitting s; isValidating := isValidating s;
     submitCount := submitCount s; status := v; error := error s |}.

Definition with_error (v : jsval) (s : FormikState) : FormikState :=
  {| values := values s; errors := errors s; touched := touched s;
     isSubmitting := isSubmitting s; isValidating := isValidating s;
     submitCount := submitCount s; status := status s; error := v |}.

(** *** The holder's state monad *)

Definition M (A : Type) : Type := Formik -> A * Formik.

Definition ret {A} (a : A) : M A := fun h => (a, h).

Definition bind {A B} (m : M A) (k : A -> M B) : M B :=
  fun h => let '(a, h') := m h in k a h'.

Declare Scope formik_scope.
Delimit Scope formik_scope with formik.
Notation "'let*' x ':=' m 'in' k" := (bind m (fun x => k))
  (at level 10, x name, m at level 100, k at level 200, only parsing)
  : formik_scope.
Local Open Scope formik_scope.

Definition gets {A} (f : Formik -> A) : M A := fun h => (f h, h).
Definition modify (f : Formik -> Formik) : M unit := fun h => (tt, f h).
Definition when (b : bool) (m : M unit) : M unit := if b then m else ret tt.

(** A fresh reference. *)
Definition fresh : M nat :=
  fun h => (next_ref h, set_next_ref (S (next_ref h)) h).

(** Running user code. *)
Definition external {A} (e : External A) : M A :=
  fun h => let '(a, n) := e (next_ref h) in (a, set_next_ref n h).

Definition emit (e : Event) : M unit :=
  modify (fun h => set_trace (trace h ++ [e]) h).

Fixpoint mapM {A B} (f : A -> M B) (l : list A) : M (list B) :=
  match l with
  | [] => ret []
  | a :: l' => let* b := f a in let* bs := mapM f l' in ret (b :: bs)
  end.

(** ** The state holder's operations *)

(** The component was mounted and [componentWillUnmount] has run: React
    has unmounted it. *)
Definition unmounted (h : Formik) : bool :=
  negb (didMount h) && everMounted h.

(** Modelled from the spec: React's [setState], the State Holder's mutation
    entry point (2: "all mutations funnel through it"; 3: the state is "never
    mutated after the holder is torn down"; 4.6: "All mutations are no-ops if
    the holder is not live (post-teardown)").  React drops the update of an
    unmounted component; on a component that is mounted, or not mounted
    yet, the update is applied at once. *)
Definition setState (partial : FormikState -> FormikState) : M unit :=
  fun h =>
    if unmounted h then (tt, h)
    else (tt, set_state (partial (state h)) h).

(** A state updater, run on the previous state; it may allocate. *)
Definition Updater : Type := FormikState -> External FormikState.

Definition setStateWith (updater : Updater) : M unit :=
  fun h =>
    if unmounted h then (tt, h)
    else
      let '(s, n) := updater (state h) (next_ref h) in
      (tt, set_state s (set_next_ref n h)).

(** [this.setState(update, callback)]: the completion callback runs after
    the update; with a dropped update it is dropped too. *)
Definition setStateAnd {A} (update : M unit) (callback : M (option A))
  : M (option A) :=
  let* dropped := gets unmounted in
  let* _ := update in
  if dropped then ret None else callback.

(** [setIn] on a reference: the new root is a new object. *)
Definition setInRef (root : jsval) (path : list string) (value : jsval)
  : External jsval :=
  fun n => (JRef n (setIn_path (content root) path (content value)), S n).

(** [!!v]: a reference is truthy. *)
Definition to_bool (v : jsval) : bool :=
  match v with
  | JPrim p => truthy (Prim p)
  | JRef _ _ => true
  end.

(** Modelled from the spec: [getStateUpdater] (utils, not under src/), 4.5:
    the setters "write to the respective tree via the path-addressed store".
    The first segment names the member of the state, the rest is the path
    inside it; with no rest the member is replaced by [value] itself.  A
    written [undefined] is kept as the value of its key, and reads back as
    [undefined] like a key that is missing. *)
Definition getStateUpdater (path : string) (value : jsval) : Updater :=
  fun prevState n =>
    match toPath path with
    | [] => (prevState, n)
    | member :: rest =>
        let put (old : jsval) : jsval * nat :=
          match rest with
          | [] => (value, n)
          | _ => setInRef old rest value n
          end in
        if String.eqb member "values" then
          let '(v, n') := put (values prevState) in (with_values v prevState, n')
        else if String.eqb member "errors" then
          let '(v, n') := put (errors prevState) in (with_errors v prevState, n')
        else if String.eqb member "touched" then
          let '(v, n') := put (touched prevState) in (with_touched v prevState, n')
        else if String.eqb member "status" then
          let '(v, n') := put (status prevState) in (with_status v prevState, n')
        else if String.eqb member "isValidating" then
          (with_isValidating (to_bool value) prevState, n)
        else if String.eqb member "isSubmitting" then
          (with_isSubmitting (to_bool value) prevState, n)
        else (prevState, n)
    end.

Definition js_bool (b : bool) : jsval := JPrim (PBool b).

Definition registerField (name : string) (Comp : Field) : M unit :=
  modify (fun h => set_fields (assoc_set name Comp (fields h)) h).

Definition unregisterField (name : string) : M unit :=
  modify (fun h => set_fields (assoc_delete name (fields h)) h).

Definition componentDidMount : M unit :=
  modify (fun h => set_everMounted true (set_didMount true h)).

(** This allows us to prevent setting state on an unmounted component. *)
Definition componentWillUnmount : M unit := modify (set_didMount false).

Definition setErrors (errors : jsval) : M unit :=
  setState (with_errors errors).

Definition setStatus (status : jsval) : M unit :=
  setState (with_status status).

Definition setSubmitting (isSubmitting : bool) : M unit :=
  let* mounted := gets didMount in
  when mounted (setState (with_isSubmitting isSubmitting)).

Definition setFieldError (field : string) (message : jsval) : M unit :=
  setStateWith (getStateUpdater ("errors." ++ field) message).

(** *** Validation sources *)

Definition hasValidate (f : Field) : bool :=
  match field_validate f with Some _ => true | None => false end.

(** [this.fields[field].props.validate(value)] inside [try]: a field that is
    not registered, or has no validator, makes the call throw a [TypeError],
    which the [catch] returns like any thrown value. *)
Definition runSingleFieldLevelValidation (field : string) (value : tree)
  : M PromiseOrValue :=
  let* registered := gets fields in
  match assoc_get field registered with
  | Some {| field_validate := Some validate |} =>
      let* _ := emit (FieldValidate field value) in
      let* result := external (validate value) in
      match result with
      | Normal (Returned v) => ret (Value v)
      | Normal (Pending _ (Fulfilled x)) =>
          let* p := fresh in ret (Promise p x)
      | Normal (Pending _ (Rejected e)) =>
          let* p := fresh in ret (Promise p e)
      | Throw e => ret (Value e)
      end
  | _ =>
      let* e := fresh in
      ret (Value (JRef e (Obj [("name", str "TypeError")])))
  end.

(** The [callback] of [runFieldLevelValidations]: the reduce over the
    settled field results, by index. *)
Fixpoint fieldErrors (fieldKeysWithValidation : list string)
    (fieldErrorsList : list jsval) (prev : jsval) : External jsval :=
  match fieldErrorsList, fieldKeysWithValidation with
  | curr :: rest, field :: fieldKeys =>
      fun n =>
        if to_bool curr then
          let '(next, n') := setInRef prev (toPath field) curr n in
          fieldErrors fieldKeys rest next n'
        else fieldErrors fieldKeys rest prev n
  | _, _ => fun n => (prev, n)
  end.

(** [Object.keys(this.fields).filter(f => ...)]: the names of the fields
    with a validator, in the order [Object.keys] lists them. *)
Definition fieldKeysWithValidation (registered : list (string * Field))
  : list string :=
  ownPropertyKeys (keys (filter (fun kf => hasValidate (snd kf)) registered)).

Definition runFieldLevelValidations (values : jsval) : M PromiseOrValue :=
  let* registered := gets fields in
  let* fieldValidations :=
    mapM (fun f => runSingleFieldLevelValidation f (getIn (content values) f))
         (fieldKeysWithValidation registered) in
  let callback fieldErrorsList :=
    fieldErrors (fieldKeysWithValidation registered) fieldErrorsList
      emptyObjectRef in
  if existsb isPromise fieldValidations then
    let* p := fresh in
    let* errors := external (callback (map settled fieldValidations)) in
    ret (Promise p errors)
  else
    let* errors := external (callback (map settled fieldValidations)) in
    ret (Value errors).

(** [a === b] on what the validate handler returned. *)
Definition sameUserResult (a b : UserResult) : bool :=
  match a, b with
  | Returned x, Returned y => strictEquals x y
  | Pending i _, Pending j _ => (i =? j)%nat
  | _, _ => false
  end.

Definition runValidateHandler (handler : jsval -> External UserResult)
    (values : jsval) : M PromiseOrValue :=
  let* _ := emit (HandlerValidate values) in
  let* maybePromisedErrors := external (handler values) in
  match maybePromisedErrors with
  | Returned v =>
      if strictEquals v js_undefined then ret (Value emptyObjectRef)
      else ret (Value v)
  | Pending _ s =>
      let* last := gets lastValidateHandlerResult in
      let stale :=
        match last with
        | None => true
        | Some l =>
            match key l with
            | k0 :: _ => negb (sameUserResult k0 maybePromisedErrors)
            | [] => true
            end
        end in
      let* r :=
        if stale then
          let* p := fresh in
          let r := Promise p (match s with
                              | Fulfilled _ => emptyObjectRef
                              | Rejected errors => errors
                              end) in
          let* _ := modify (set_lastValidateHandlerResult
                              (Some {| key := [maybePromisedErrors];
                                       result := r |})) in
          ret r
        else
          match last with
          | Some l => ret (result l)
          | None => ret (Value emptyObjectRef)
          end in
      ret r
  end.

(** [cacheKey.every((el, i) => el === stored[i])]: a missing [stored[i]] is
    [undefined], which no key component is. *)
Fixpoint everySame {K} (same : K -> K -> bool) (els stored : list K) : bool :=
  match els with
  | [] => true
  | el :: els' =>
      match stored with
      | k :: stored' => same el k && everySame same els' stored'
      | [] => false
      end
  end.

(** [validateYupSchema(values, schema)] on the content of [values], in a
    store of its own. *)
Definition validateYupSchemaOf (values : jsval) (schema : Schema)
  : SchemaResult :=
  snd (validateYupSchema [content values] 0 schema false emptyObject).

(** Run validation against a Yup schema. *)
Definition runValidationSchema (validationSchema : SchemaProp)
    (values : jsval) : M PromiseOrValue :=
  let* schema :=
    match validationSchema with
    | SchemaFactory factory => external factory
    | SchemaObject schema => ret schema
    end in
  let cacheKey := [KSchema schema; KValues values] in
  let* last := gets lastYupValidationResult in
  let hit :=
    match last with
    | Some l => everySame sameYupKey cacheKey (key l)
    | None => false
    end in
  match last, hit with
  | Some l, true => ret (result l)
  | _, _ =>
      let* _ := emit (SchemaValidate (schema_ref schema) values) in
      let* p := fresh in
      let* errors :=
        match validateYupSchemaOf values schema with
        | Valid _ => ret emptyObjectRef
        | Invalid err =>
            let* e := fresh in ret (JRef e (yupToFormErrors err))
        end in
      let r := Promise p errors in
      let* _ := modify (set_lastYupValidationResult
                          (Some {| key := cacheKey; result := r |})) in
      ret r
  end.

(** *** The orchestrator *)

(** Modelled from the spec: [ThrottledAction.enqueue] (utils, not under
    src/), 4.3: "If no computation is currently active, immediately starts
    [producer()]".  Every run below starts from an idle runner; overlapping
    requests are not modelled. *)
Definition enqueue {A} (producer : M A) : M A := producer.

(** What the producer of [runValidations] returns, with the three results it
    compared: the cached tree, already resolved, or the results still to be
    awaited. *)
Inductive PendingValidation :=
| CacheHit (validationResults : list PromiseOrValue) (combinedErrors : jsval)
| AwaitAll (validationResults : list PromiseOrValue).

Definition resultsOf (pending : PendingValidation) : list PromiseOrValue :=
  match pending with
  | CacheHit validationResults _ => validationResults
  | AwaitAll validationResults => validationResults
  end.

(** The producer of [runValidations], up to the promise it returns. *)
Definition runValidations (values : jsval) : M PendingValidation :=
  enqueue (
    let* config := gets props in
    let* fieldResult := runFieldLevelValidations values in
    let* schemaResult :=
      match validationSchema config with
      | Some schema => runValidationSchema schema values
      | None => ret (Value emptyObjectRef)
      end in
    let* handlerResult :=
      match validate config with
      | Some handler => runValidateHandler handler values
      | None => ret (Value emptyObjectRef)
      end in
    let validationResults := [fieldResult; schemaResult; handlerResult] in
    let* last := gets lastValidationResults in
    let hit :=
      match last with
      | Some l => everySame sameResult validationResults (key l)
      | None => false
      end in
    match last, hit with
    | Some l, true =>
        let combinedErrors := result l in
        let* mounted := gets didMount in
        let* _ :=
          when mounted (
            let* _ := setStateWith (getStateUpdater "isValidating" (js_bool false)) in
            setStateWith (getStateUpdater "errors" combinedErrors)) in
        ret (CacheHit validationResults combinedErrors)
    | _, _ =>
        let* _ := setState (with_isValidating true) in
        ret (AwaitAll validationResults)
    end).

(** The [then] of [Promise.all(validationResults)]. *)
Definition runValidations_then (validationResults : list PromiseOrValue)
  : M jsval :=
  let errors := map settled validationResults in
  let* c := fresh in
  let combinedErrors :=
    JRef c (deepmerge_all (map content errors) formikMergeOptions) in
  let* mounted := gets didMount in
  let* _ :=
    when mounted (
      let* _ := setStateWith (getStateUpdater "isValidating" (js_bool false)) in
      setStateWith (getStateUpdater "errors" combinedErrors)) in
  let* _ := modify (set_lastValidationResults
                      (Some {| key := validationResults;
                               result := combinedErrors |})) in
  ret combinedErrors.

(** What the promise of [runValidations] resolves to, once it settles. *)
Definition runValidations_settle (pending : PendingValidation) : M jsval :=
  match pending with
  | CacheHit _ combinedErrors => ret combinedErrors
  | AwaitAll validationResults => runValidations_then validationResults
  end.

(** *** Setters *)

(** A setter returns the validation request it enqueued, if any: the
    [values] argument of the [runValidations] call. *)
Definition setTouched (touched : jsval) : M (option jsval) :=
  setStateAnd (setState (with_touched touched)) (
    let* config := gets props in
    if validateOnBlur config then
      let* s := gets state in ret (Some (values s))
    else ret None).

Definition setValues (values : jsval) : M (option jsval) :=
  setStateAnd (setState (with_values values)) (
    let* config := gets props in
    if validateOnChange config then ret (Some values) else ret None).

Definition setFieldValue (field : string) (value : jsval)
    (shouldValidate : bool) : M (option jsval) :=
  let* mounted := gets didMount in
  if mounted then
    setStateAnd (setStateWith (getStateUpdater ("values." ++ field) value)) (
      let* config := gets props in
      if validateOnChange config && shouldValidate then
        let* s := gets state in ret (Some (values s))
      else ret None)
  else ret None.

Definition setFieldTouched (field : string) (touched : bool)
    (shouldValidate : bool) : M (option jsval) :=
  setStateAnd
    (setStateWith (getStateUpdater ("touched." ++ field) (js_bool touched))) (
    let* config := gets props in
    if validateOnBlur config && shouldValidate then
      let* s := gets state in ret (Some (values s))
    else ret None).

(** *** Submit *)

Definition getFormikActions : FormikActions :=
  ["resetForm"; "submitForm"; "validateForm"; "validateField"; "setError";
   "setErrors"; "setFieldError"; "setFieldTouched"; "setFieldValue";
   "setStatus"; "setSubmitting"; "setTouched"; "setValues"; "setFormikState"].

Definition executeSubmit : M unit :=
  let* s := gets state in
  let* config := gets props in
  let* _ := emit (OnSubmit (values s) getFormikActions) in
  external (onSubmit config (values s) getFormikActions).

(** The synchronous part of [submitForm]: the state update, and the
    [values] that [this.runValidations()] takes by default. *)
Definition submitForm : M jsval :=
  let* t := fresh in
  let* _ := setState (fun prevState =>
    with_submitCount (submitCount prevState + 1)
      (with_isSubmitting true
         (with_touched
            (JRef t (setNestedObjectValues (content (values prevState))
                       (Prim (PBool true))))
            prevState))) in
  let* s := gets state in
  ret (values s).

(** The [then] of [submitForm]. *)
Definition submitForm_then (combinedErrors : jsval) : M unit :=
  let isValid :=
    (length (object_keys (content combinedErrors)) =? 0)%nat in
  if isValid then executeSubmit
  else
    let* mounted := gets didMount in
    when mounted (setState (with_isSubmitting false)).

(** *** Reset *)

Definition resetForm (nextValues : jsval) : M unit :=
  let* config := gets props in
  let values := if to_bool nextValues then nextValues
                else initialValues config in
  let* _ := modify (set_this_initialValues values) in
  setState (fun _ =>
    {| isSubmitting := false;
       isValidating := false;
       errors := emptyObjectRef;
       touched := emptyObjectRef;
       error := js_undefined;
       status := js_undefined;
       values := values;
       submitCount := 0 |}).

(** The synchronous part of [handleReset]; it returns the settlement to wait
    for when the reset handler returned a promise. *)
Definition handleReset : M (option Settled) :=
  let* config := gets props in
  match onReset config with
  | Some handler =>
      let* s := gets state in
      let* _ := emit (OnReset (values s) getFormikActions) in
      let* maybePromisedOnReset :=
        external (handler (values s) getFormikActions) in
      match maybePromisedOnReset with
      | Pending _ settlement => ret (Some settlement)
      | Returned _ => let* _ := resetForm js_undefined in ret None
      end
  | None => let* _ := resetForm js_undefined in ret None
  end.

(** [maybePromisedOnReset.then(this.resetForm)]: the continuation is
    [resetForm] itself, called with the fulfilment value; a rejection has no
    handler. *)
Definition handleReset_then (settlement : Settled) : M unit :=
  match settlement with
  | Fulfilled v => resetForm v
  | Rejected _ => ret tt
  end.

(** *** The rendered bag's derived members *)

Record ComputedProps := {
  dirty : bool;
  isValid : jsval;
  computed_initialValues : jsval;
}.

(** [isInitialValid !== false && isFunction(isInitialValid)
      ? isInitialValid(this.props) : isInitialValid]: the test holds
    exactly for a function. *)
Definition resolveIsInitialValid (config : FormikConfig) : jsval :=
  match isInitialValid config with
  | IVFun f => js_bool (f config)
  | IVBool b => js_bool b
  end.

Definition getFormikComputedProps (h : Formik) : ComputedProps :=
  let dirty :=
    negb (isEqual (content (this_initialValues h))
                  (content (values (state h)))) in
  {| dirty := dirty;
     isValid :=
       if dirty then
         if to_bool (errors (state h))
         then js_bool (length (object_keys (content (errors (state h)))) =? 0)%nat
         else errors (state h)
       else resolveIsInitialValid (props h);
     computed_initialValues := this_initialValues h |}.

(** ** Runs across suspension points *)

(** What may happen to the holder while a promise is pending. *)
Inductive Lifecycle := Stay | Unmount.

Definition lifecycle (l : Lifecycle) : M unit :=
  match l with
  | Stay => ret tt
  | Unmount => componentWillUnmount
  end.

(** One [runValidations(values)] call, from the request to the value its
    promise resolves to. *)
Definition runValidations_run (values : jsval)
  : M (PendingValidation * jsval) :=
  let* pending := runValidations values in
  let* combinedErrors := runValidations_settle pending in
  ret (pending, combinedErrors).

(** [submitForm()] up to the point where its [then] is about to run with the
    merged tree: [l1] happens before the producer starts, [l2] while the
    validators are pending, [l3] before the continuation. *)
Definition submitForm_validate (l1 l2 l3 : Lifecycle) : M jsval :=
  let* values := submitForm in
  let* _ := lifecycle l1 in
  let* pending := runValidations values in
  let* _ := lifecycle l2 in
  let* combinedErrors := runValidations_settle pending in
  let* _ := lifecycle l3 in
  ret combinedErrors.

Definition submitForm_run (l1 l2 l3 : Lifecycle) : M unit :=
  let* combinedErrors := submitForm_validate l1 l2 l3 in
  submitForm_then combinedErrors.

(** [handleReset()] with a reset in the pending branch run at settlement. *)
Definition handleReset_run (l : Lifecycle) : M unit :=
  let* waiting := handleReset in
  let* _ := lifecycle l in
  match waiting with
  | Some settlement => handleReset_then settlement
  | None => ret tt
  end.

(** The constructor: the state and instance members of a new holder;
    [next] is the first reference free for allocation. *)
Definition constructor (config : FormikConfig) (next : nat) : Formik :=
  let initial :=
    if to_bool (initialValues config) then initialValues config
    else emptyObjectRef in
  {| props := config;
     state := {| values := initial;
                 errors := emptyObjectRef;
                 touched := emptyObjectRef;
                 isSubmitting := false;
                 isValidating := false;
                 submitCount := 0;
                 status := js_undefined;
                 error := js_undefined |};
     this_initialValues := initial;
     didMount := false;
     everMounted := false;
     fields := [];
     lastValidationResults := None;
     lastYupValidationResult := None;
     lastValidateHandlerResult := None;
     next_ref := next;
     trace := [] |}.

(** * Vocabulary of the properties *)

(** ** Trees *)

(** Induction on a tree, with the hypothesis for every member. *)
Section TreeInd.
Variable P : tree -> Prop.
Hypothesis HPrim : forall p, P (Prim p).
Hypothesis HObj : forall f, Forall (fun kv => P (snd kv)) f -> P (Obj f).
Hypothesis HArr : forall l, Forall P l -> P (Arr l).

Fixpoint tree_ind (t : tree) : P t :=
  match t with
  | Prim p => HPrim p
  | Obj f =>
      HObj f
        ((fix go (f : list (string * tree)) : Forall (fun kv => P (snd kv)) f :=
            match f with
            | [] => List.Forall_nil _
            | (k, v) :: f' => List.Forall_cons _ (k, v) f' (tree_ind v) (go f')
            end) f)
  | Arr l =>
      HArr l
        ((fix go (l : list tree) : Forall P l :=
            match l with
            | [] => List.Forall_nil _
            | v :: l' => List.Forall_cons _ v l' (tree_ind v) (go l')
            end) l)
  end.
End TreeInd.

(** A tree the runtime can hold: no plain object has a key twice. *)
Fixpoint well_formed (t : tree) : bool :=
  match t with
  | Prim _ => true
  | Obj f =>
      bool_decide (NoDup (keys f)) &&
      forallb (fun '(_, v) => well_formed v) f
  | Arr l => forallb well_formed l
  end.

(** An error tree with a sparse array, a nested object and a repeated
    primitive. *)
Definition sampleErrors : tree :=
  Obj [("friends", Arr [undefined; Obj [("name", str "Required")];
                        str "x"; str "x"]);
       ("email", str "Invalid")].



(** Two violations of one nested field, and of one top-level field. *)
Definition nestedTwice : YupError :=
  {| path := ""; message := "2 errors occurred";
     inner := [ {| err_path := "address.city";
                   err_message := "City is required" |};
                {| err_path := "address.city";
                   err_message := "City is too short" |} ] |}.

Definition flatTwice : YupError :=
  {| path := ""; message := "2 errors occurred";
     inner := [ {| err_path := "city"; err_message := "City is required" |};
                {| err_path := "city"; err_message := "City is too short" |} ] |}.

(** ** Schema errors *)

(** The first message an inner list has for a path. *)
Fixpoint firstMessage (p : string) (errs : list InnerError) : option string :=
  match errs with
  | [] => None
  | err :: rest =>
      if String.eqb p (err_path err) then Some (err_message err)
      else firstMessage p rest
  end.

(** A top-level path, not the name of an inherited member, with a message
    that is not blank. *)
Definition topLevel (err : InnerError) : Prop :=
  toPath (err_path err) = [err_path err] /\ err_message err <> ""
  /\ err_path err ∉ inheritedMembers.

(** ** Validator calls *)

Definition isValidatorCall (e : Event) : bool :=
  match e with
  | FieldValidate _ _ | SchemaValidate _ _ | HandlerValidate _ => true
  | OnSubmit _ _ | OnReset _ _ => false
  end.

Definition isOnSubmit (e : Event) : bool :=
  match e with OnSubmit _ _ => true | _ => false end.

(** The field validator call [runSingleFieldLevelValidation] makes. *)
Definition singleEvents (registered : list (string * Field)) (field : string)
    (value : tree) : list Event :=
  match assoc_get field registered with
  | Some {| field_validate := Some _ |} => [FieldValidate field value]
  | _ => []
  end.

(** The field validator calls of one [runFieldLevelValidations(values)]. *)
Definition fieldEvents (registered : list (string * Field)) (values : jsval)
  : list Event :=
  flat_map
    (fun f => singleEvents registered f (getIn (content values) f))
    (fieldKeysWithValidation registered).

(** The whole-form validator call of one [runValidations(values)]. *)
Definition handlerEvents (config : FormikConfig) (values : jsval)
  : list Event :=
  match validate config with
  | Some _ => [HandlerValidate values]
  | None => []
  end.

(** What every validation step leaves alone, and the validator calls it
    adds. *)
Record Frame (h h' : Formik) (evs : list Event) : Prop := {
  frame_props : props h' = props h;
  frame_fields : fields h' = fields h;
  frame_didMount : didMount h' = didMount h;
  frame_initialValues : this_initialValues h' = this_initialValues h;
  frame_values : values (state h') = values (state h);
  frame_trace : trace h' = trace h ++ evs;
  frame_events : forallb isValidatorCall evs = true;
  frame_everMounted : everMounted h' = everMounted h;
}.

(** The schema cache is keyed on this schema and these values. *)
Definition yupHit (h : Formik) (schema : Schema) (values : jsval) : bool :=
  match lastYupValidationResult h with
  | Some l => everySame sameYupKey [KSchema schema; KValues values] (key l)
  | None => false
  end.

(** The schema object of a call made when [n] is the next free
    reference: the configured object, or what the factory returns. *)
Definition schemaOf (validationSchema : SchemaProp) (n : nat) : Schema :=
  match validationSchema with
  | SchemaObject schema => schema
  | SchemaFactory factory => fst (factory n)
  end.

(** The schema is absent, or one object on every call: given as an object,
    or by a factory that returns the same object each time. *)
Definition sameSchemaObject (config : FormikConfig) : Prop :=
  match validationSchema config with
  | Some validationSchema =>
      forall n m, schema_ref (schemaOf validationSchema n)
                  = schema_ref (schemaOf validationSchema m)
  | None => True
  end.

(** The schema call of one [runValidations(values)], for a schema that is
    one object: none on a cache hit. *)
Definition schemaEvents (h : Formik) (values : jsval) : list Event :=
  match validationSchema (props h) with
  | Some validationSchema =>
      let schema := schemaOf validationSchema 0 in
      if yupHit h schema values then []
      else [SchemaValidate (schema_ref schema) values]
  | None => []
  end.

(** The schema cache holds the result for [values]. *)
Definition schemaCached (h : Formik) (values : jsval) : bool :=
  match validationSchema (props h) with
  | Some validationSchema => yupHit h (schemaOf validationSchema 0) values
  | None => true
  end.

(** The merged tree the combined-result cache holds for these results. *)
Definition cachedResult (h : Formik) (validationResults : list PromiseOrValue)
  : option jsval :=
  match lastValidationResults h with
  | Some l =>
      if everySame sameResult validationResults (key l)
      then Some (result l) else None
  | None => None
  end.

(** ** Sample forms *)

(** A submit handler that does nothing. *)
Definition noSubmit : jsval -> FormikActions -> External unit :=
  fun _ _ n => (tt, n).

(** A field validator: "Required" for a falsy value. *)
Definition requiredField : Field :=
  {| field_validate := Some (fun value n =>
       (Normal (Returned (if truthy value then js_undefined
                          else JPrim (PStr "Required"))), n)) |}.

(** A schema object that accepts everything. *)
Definition acceptAll : Schema :=
  {| schema_ref := 5;
     schema_validate := fun data _ => Valid data;
     schema_validateSync := fun data _ => Valid data |}.

(** A configuration with the default flags. *)
Definition sampleConfig (initial : jsval) (schema : option SchemaProp)
    (handler : option (jsval -> External UserResult))
    (reset : option (jsval -> FormikActions -> External UserResult))
  : FormikConfig :=
  {| base := {| initialValues := initial; onSubmit := noSubmit;
                validate := handler; validationSchema := schema;
                onReset := reset; validateOnChange := true;
                validateOnBlur := true; enableReinitialize := false |};
     isInitialValid := IVBool false |}.

Definition blankName : jsval := JRef 1 (Obj [("name", str "")]).
Definition filledName : jsval := JRef 2 (Obj [("name", str "Ann")]).

(** A mounted form over [initial] with the [name] field registered. *)
Definition mountedForm (config : FormikConfig) : Formik :=
  snd (registerField "name" requiredField
         (snd (componentDidMount (constructor config 10)))).

(** No schema, no handler: the field validator alone. *)
Definition requiredNameForm : Formik :=
  mountedForm (sampleConfig blankName None None None).

(** A schema object and a whole-form validator that reports nothing. *)
Definition schemaForm : Formik :=
  mountedForm
    (sampleConfig filledName (Some (SchemaObject acceptAll))
       (Some (fun _ n => (Returned js_undefined, n))) None).




(** A form whose one field validator reports nothing, through a promise. *)
Definition asyncNameForm : Formik :=
  snd (registerField "name"
         {| field_validate := Some (fun _ n =>
              (Normal (Pending n (Fulfilled js_undefined)), S n)) |}
         requiredNameForm).

(** A form, with no field registered, whose schema factory builds a new
    schema object on each call. *)
Definition freshSchemaForm : Formik :=
  snd (componentDidMount
         (constructor
            (sampleConfig filledName
               (Some (SchemaFactory (fun n =>
                  ({| schema_ref := n;
                      schema_validate := schema_validate acceptAll;
                      schema_validateSync := schema_validateSync acceptAll |},
                   S n))))
               None None) 10)).

(** The liveness flag after a lifecycle step. *)
Definition liveAfter (l : Lifecycle) (live : bool) : bool :=
  match l with Stay => live | Unmount => false end.

(** A form whose holder was mounted and then torn down. *)
Definition tornDownForm : Formik := snd (componentWillUnmount requiredNameForm).

(** A form whose holder is constructed and not yet mounted. *)
Definition unmountedForm : Formik :=
  constructor (sampleConfig blankName None None None) 10.

(** The state of a form just reset to [v]. *)
Definition pristine (v : jsval) : FormikState :=
  {| values := v; errors := emptyObjectRef; touched := emptyObjectRef;
     isSubmitting := false; isValidating := false; submitCount := 0;
     status := js_undefined; error := js_undefined |}.

(** A reset handler that returns a promise fulfilled with [filledName]. *)
Definition resettingForm : Formik :=
  mountedForm
    (sampleConfig blankName None None
       (Some (fun _ _ n => (Pending n (Fulfilled filledName), S n)))).

(** A reset handler that returns a non-promise value. *)
Definition resettingFormSync : Formik :=
  mountedForm
    (sampleConfig blankName None None
       (Some (fun _ _ n => (Returned filledName, n)))).

(** A dirty form with one error, and an untouched form whose
    [isInitialValid] is a function of the props. *)
Definition dirtyForm : Formik :=
  snd (setErrors (JRef 3 (Obj [("name", str "Required")]))
         (snd (setValues filledName requiredNameForm))).

Definition initiallyValidForm : Formik :=
  constructor
    {| base := sampleConfig blankName None None None;
       isInitialValid := IVFun (fun config => validateOnBlur config) |} 10.

(** A schema object that requires [name]: with [abortEarly: false] the
    violation comes in the [inner] list. *)
Definition requireName : Schema :=
  let check data (_ : ValidateOptions) :=
    if is_undefined (get_prop data "name")
    then Invalid {| path := ""; message := "1 error occurred";
                    inner := [ {| err_path := "name";
                                  err_message := "name is required" |} ] |}
    else Valid data in
  {| schema_ref := 6; schema_validate := check; schema_validateSync := check |}.

(** The form of the first scenario of spec 8: a blank name and a schema that
    requires it. *)
Definition scenarioRequired : Formik :=
  snd (componentDidMount
         (constructor (sampleConfig blankName (Some (SchemaObject requireName))
                         None None) 10)).

(** The form of the second scenario of spec 8: no validators at all. *)
Definition scenarioAge : Formik :=
  snd (componentDidMount
         (constructor (sampleConfig (JRef 4 (Obj [("age", Prim (PNum 5))]))
                         None None None) 10)).

(** One setter call followed by the validation run it requests. *)
Definition setFieldValue_run (field : string) (value : jsval) : M unit :=
  let* request := setFieldValue field value true in
  match request with
  | Some values => let* _ := runValidations_run values in ret tt
  | None => ret tt
  end.

(** * More of the holder *)

(** ** Merge *)


(** ** Reinitialisation *)

(** [componentDidUpdate(prevProps)]: [this.props] are the props after the
    update. *)
Definition componentDidUpdate (prevProps : FormikConfig) : M unit :=
  let* config := gets props in
  if enableReinitialize config
     && negb (isEqual (content (initialValues prevProps))
                      (content (initialValues config)))
  then
    let* _ := modify (set_this_initialValues (initialValues config)) in
    resetForm (initialValues config)
  else ret tt.

(** A mounted form that follows its initial values, edited since. *)
Definition reinitializingForm (initial : jsval) : Formik :=
  snd (setValues filledName
         (mountedForm
            {| base := {| initialValues := initial; onSubmit := noSubmit;
                          validate := None; validationSchema := None;
                          onReset := None; validateOnChange := true;
                          validateOnBlur := true;
                          enableReinitialize := true |};
               isInitialValid := IVBool false |})).

(** A reset handler whose promise is rejected. *)
Definition rejectedResetForm : Formik :=
  snd (setValues filledName
         (mountedForm
            (sampleConfig blankName None None
               (Some (fun _ _ n =>
                        (Pending n (Rejected (JPrim (PStr "no"))), S n)))))).

(** ** Validation of one field *)

(** The [callback] of [validateField]. *)
Definition validateField_callback (field : string) (error : jsval) : M unit :=
  let* mounted := gets didMount in
  when mounted (
    let* _ := setStateWith (getStateUpdater "isValidating" (js_bool false)) in
    setStateWith (getStateUpdater ("errors." ++ field) error)).

(** The synchronous part of [validateField]; it returns what the promise of
    the validator settles with, when the validator returned one. *)
Definition validateField (field : string) : M (option jsval) :=
  let* s := gets state in
  let* result :=
    runSingleFieldLevelValidation field (getIn (content (values s)) field) in
  match result with
  | Promise _ v =>
      let* _ := setStateWith (getStateUpdater "isValidating" (js_bool true)) in
      ret (Some v)
  | Value v => let* _ := validateField_callback field v in ret None
  end.

(** [validateField(field)] with the callback of the pending branch run at
    settlement. *)
Definition validateField_run (l : Lifecycle) (field : string) : M unit :=
  let* waiting := validateField field in
  let* _ := lifecycle l in
  match waiting with
  | Some v => validateField_callback field v
  | None => ret tt
  end.

(** What a field validator's outcome hands to the callback: the value
    returned or thrown, or what its promise settles with, either way. *)
Definition outcomeValue (outcome : Completion) : jsval :=
  match outcome with
  | Normal (Returned v) => v
  | Normal (Pending _ (Fulfilled x)) => x
  | Normal (Pending _ (Rejected e)) => e
  | Throw e => e
  end.

(** A field validator that rejects with "taken". *)
Definition takenField : Field :=
  {| field_validate := Some (fun _ n =>
       (Normal (Pending n (Rejected (JPrim (PStr "taken")))), S n)) |}.

Definition takenNameForm : Formik :=
  snd (registerField "name" takenField requiredNameForm).

(** ** Change and blur events *)

(** The members of [event.target] the handlers read; [name] and [id] of an
    element are strings, empty when the attribute is missing. *)
Record EventTarget := {
  target_type : string;
  target_name : string;
  target_id : string;
  target_value : jsval;
  target_checked : bool;
}.

(** [eventOrTextValue]: the text of a React Native input, or an event. *)
Inductive ChangeInput :=
| TextValue (text : string)
| ChangeEvent (target : EventTarget).

(** [/needle/.test(s)] for a literal pattern. *)
Definition contains (needle s : string) : bool :=
  match String.index 0 needle s with Some _ => true | None => false end.

(** [path ? path : name ? name : id] *)
Definition targetField (path : option string) (target : EventTarget)
  : string :=
  let named :=
    if negb (String.eqb (target_name target) "") then target_name target
    else target_id target in
  match path with
  | Some p => if negb (String.eqb p "") then p else named
  | None => named
  end.

Section Events.

(** [parseFloat]: the number read, [None] for [NaN]. *)
Variable parseFloat : jsval -> option prim.

(** The value a change event stands for. *)
Definition changedValue (target : EventTarget) : jsval :=
  if contains "number" (target_type target)
     || contains "range" (target_type target)
  then match parseFloat (target_value target) with
       | Some parsed => JPrim parsed
       | None => JPrim (PStr "")
       end
  else if contains "checkbox" (target_type target)
       then js_bool (target_checked target)
       else target_value target.

(** [executeChange], the core of [handleChange]; the handlers kept per path
    call it with that path.  The warning about a missing identifier and
    [persist] leave the holder alone. *)
Definition executeChange (eventOrTextValue : ChangeInput)
    (maybePath : option string) : M (option jsval) :=
  let '(field, val) :=
    match eventOrTextValue with
    | TextValue text => (default "" maybePath, JPrim (PStr text))
    | ChangeEvent target =>
        (targetField maybePath target, changedValue target)
    end in
  if negb (String.eqb field "") then setFieldValue field val true
  else ret None.

End Events.

(** [executeBlur], the core of [handleBlur]. *)
Definition executeBlur (target : EventTarget) (path : option string)
  : M (option jsval) :=
  setFieldTouched (targetField path target) true true.

(** A checkbox named [agree] and an input without identifier. *)
Definition agreeBox (checked : bool) : EventTarget :=
  {| target_type := "checkbox"; target_name := "agree"; target_id := "";
     target_value := JPrim (PStr "on"); target_checked := checked |}.

Definition anonymousInput : EventTarget :=
  {| target_type := "text"; target_name := ""; target_id := "";
     target_value := JPrim (PStr "Ann"); target_checked := false |}.

(** * Properties *)

(** ** Proof steps *)

Arguments getStateUpdater : simpl never.
Arguments everySame : simpl never.
Arguments fieldKeysWithValidation : simpl never.
Arguments memberIsTruthy : simpl never.

Ltac monad :=
  unfold setStateAnd, bind, gets, modify, emit, external, fresh, ret, when,
    setState, setStateWith, enqueue, unmounted in *.

Ltac frame := repeat split; cbn; rewrite ?app_nil_r; auto.

(** The cases of the liveness flag and of the mount record of [h], in the
    run [Hrun]. *)
Ltac liveness h Hrun :=
  let Dm := fresh "Dm" in
  let Em := fresh "Em" in
  destruct (didMount h) eqn:Dm, (everMounted h) eqn:Em; simpl in Hrun;
  repeat (progress (rewrite ?Dm, ?Em in Hrun; simpl in Hrun)).

(** The goal on a holder whose liveness flag is [Hlive]. *)
Ltac live Hlive := repeat (progress (rewrite ?Hlive; simpl)).

(** ** Primitives, identity and association lists *)

Lemma prim_eqb_refl p : prim_eqb p p = true.
Proof.
  destruct p; simpl; auto using Z.eqb_refl, String.eqb_refl.
  destruct b; reflexivity.
Qed.


Lemma strictEquals_refl v : strictEquals v v = true.
Proof.
  destruct v; simpl; [apply prim_eqb_refl | apply Nat.eqb_refl].
Qed.

Lemma sameResult_refl r : sameResult r r = true.
Proof.
  destruct r; simpl; [apply strictEquals_refl | apply Nat.eqb_refl].
Qed.


Lemma everySame_refl {K} (same : K -> K -> bool) els :
  (forall k, same k k = true) -> everySame same els els = true.
Proof.
  intros Hrefl. induction els as [|el els IH]; unfold everySame; simpl;
    [reflexivity|].
  rewrite Hrefl. exact IH.
Qed.


Lemma assoc_get_In {A} k (v : A) f :
  NoDup (keys f) -> In (k, v) f -> assoc_get k f = Some v.
Proof.
  induction f as [|[k' v'] f IH]; simpl; intros Hnd Hin; [tauto|].
  apply NoDup_cons in Hnd as [Hk Hnd].
  destruct Hin as [Heq | Hin].
  - inversion Heq; subst. now rewrite String.eqb_refl.
  - destruct (String.eqb_spec k k') as [-> | Hne].
    + exfalso. apply Hk. apply list_elem_of_In.
      change k' with (fst (k', v)). now apply in_map.
    + auto.
Qed.

Lemma assoc_set_In {A} k (v : A) f :
  NoDup (keys f) -> In (k, v) f -> assoc_set k v f = f.
Proof.
  induction f as [|[k' v'] f IH]; simpl; intros Hnd Hin; [tauto|].
  apply NoDup_cons in Hnd as [Hk Hnd].
  destruct Hin as [Heq | Hin].
  - inversion Heq; subst. now rewrite String.eqb_refl.
  - destruct (String.eqb_spec k k') as [-> | Hne].
    + exfalso. apply Hk. apply list_elem_of_In.
      change k' with (fst (k', v)). now apply in_map.
    + now rewrite IH.
Qed.

Lemma assoc_set_fresh {A} k (v : A) f :
  ~ In k (keys f) -> assoc_set k v f = f ++ [(k, v)].
Proof.
  induction f as [|[k' v'] f IH]; simpl; intros Hk; [reflexivity|].
  destruct (String.eqb_spec k k') as [-> | Hne]; [tauto|].
  rewrite IH; tauto.
Qed.

Lemma assoc_get_set {A} k (x : A) f : assoc_get k (assoc_set k x f) = Some x.
Proof.
  induction f as [|[k' v'] f IH]; simpl.
  - now rewrite String.eqb_refl.
  - destruct (String.eqb_spec k k') as [-> | Hne]; simpl.
    + now rewrite String.eqb_refl.
    + apply String.eqb_neq in Hne. now rewrite Hne.
Qed.

Lemma assoc_get_set_ne {A} k k' (x : A) f :
  k <> k' -> assoc_get k' (assoc_set k x f) = assoc_get k' f.
Proof.
  intros Hne. induction f as [|[k0 v0] f IH]; simpl.
  - destruct (String.eqb_spec k' k); [congruence | reflexivity].
  - destruct (String.eqb_spec k k0) as [-> | Hk]; simpl.
    + destruct (String.eqb_spec k' k0); [congruence | reflexivity].
    + destruct (String.eqb_spec k' k0); [reflexivity | exact IH].
Qed.

(** ** The order of [Object.keys] *)

Lemma insertByIndex_perm i k sorted :
  map snd (insertByIndex i k sorted) ≡ₚ k :: map snd sorted.
Proof.
  induction sorted as [|[j k'] sorted IH]; simpl; [reflexivity|].
  destruct (i <=? j)%nat; simpl; [reflexivity|].
  rewrite IH. apply perm_swap.
Qed.

(** [Object.keys] lists every name once. *)
Lemma ownPropertyKeys_perm ks : ownPropertyKeys ks ≡ₚ ks.
Proof.
  unfold ownPropertyKeys. induction ks as [|k ks IH]; simpl; [reflexivity|].
  rewrite filter_cons.
  destruct (arrayIndex k) as [i|] eqn:Hk.
  - destruct (decide (Some i = None)) as [E|_]; [discriminate|].
    rewrite insertByIndex_perm. simpl. now constructor.
  - destruct (decide (None = None)) as [_|E]; [|congruence].
    rewrite <- Permutation_middle. now constructor.
Qed.

Lemma ownPropertyKeys_In k ks : In k (ownPropertyKeys ks) <-> In k ks.
Proof.
  rewrite <- !list_elem_of_In. now rewrite ownPropertyKeys_perm.
Qed.

(** Names that are no array indices are listed in the order of their
    creation. *)
Lemma ownPropertyKeys_names ks :
  Forall (fun k => arrayIndex k = None) ks -> ownPropertyKeys ks = ks.
Proof.
  unfold ownPropertyKeys. induction ks as [|k ks IH]; intros Hall;
    [reflexivity|].
  apply Forall_cons in Hall as [Hk Hall]. specialize (IH Hall).
  simpl. rewrite filter_cons, Hk.
  destruct (decide (None = None)) as [_|E]; [|congruence].
  assert (Hnil : foldr (fun k sorted =>
                          match arrayIndex k with
                          | Some i => insertByIndex i k sorted
                          | None => sorted
                          end) [] ks = []).
  { clear IH. induction ks as [|k' ks IH']; [reflexivity|].
    apply Forall_cons in Hall as [Hk' Hall]. simpl. rewrite Hk'.
    now apply IH'. }
  rewrite Hnil in IH |- *. simpl in IH |- *. now rewrite IH.
Qed.

(** ** Path-addressed store *)

Lemma js_index_set l i (x : tree) : js_index (js_set_index l i x) i = x.
Proof.
  unfold js_index, js_set_index.
  destruct (i <? length l)%nat eqn:Hlt.
  - apply Nat.ltb_lt in Hlt. now rewrite list_lookup_insert_eq.
  - apply Nat.ltb_ge in Hlt.
    rewrite lookup_app_r by assumption.
    rewrite lookup_app_r by (rewrite length_replicate; lia).
    rewrite length_replicate, Nat.sub_diag. reflexivity.
Qed.

Lemma get_set_prop v k x : get_prop (set_prop v k x) k = x.
Proof.
  unfold set_prop.
  destruct v as [p | f | l].
  - destruct (as_index k) as [i|] eqn:Hi; simpl.
    + rewrite Hi. apply js_index_set.
    + now rewrite String.eqb_refl.
  - simpl. now rewrite assoc_get_set.
  - destruct (as_index k) as [i|] eqn:Hi; simpl.
    + rewrite Hi. apply js_index_set.
    + now rewrite String.eqb_refl.
Qed.

Lemma set_prop_truthy v k x : truthy (set_prop v k x) = true.
Proof.
  unfold set_prop. destruct v; destruct (as_index k); reflexivity.
Qed.

Lemma getIn_setIn_path path : forall v x,
  getIn_path (setIn_path v path x) path = x.
Proof.
  induction path as [|k rest IH]; intros v x; simpl; [reflexivity|].
  rewrite set_prop_truthy, get_set_prop. apply IH.
Qed.

(** The round trip of the path-addressed store (spec 8):
    [get(setIn(store, path, v), path) === v]. *)
Lemma getIn_setIn v path x : getIn (setIn v path x) path = x.
Proof. apply getIn_setIn_path. Qed.

(** ** Schema errors *)

Lemma yupToFormErrors_single yupError :
  inner yupError = [] ->
  yupToFormErrors yupError
  = setIn emptyObject (path yupError) (str (message yupError)).
Proof.
  intros H. unfold yupToFormErrors. now rewrite H.
Qed.

Lemma firstMessage_app p pre err :
  firstMessage p (pre ++ [err])
  = match firstMessage p pre with
    | Some m => Some m
    | None => if String.eqb p (err_path err) then Some (err_message err)
              else None
    end.
Proof.
  induction pre as [|e pre IH]; simpl; [reflexivity|].
  destruct (String.eqb p (err_path e)); [reflexivity | exact IH].
Qed.

Lemma firstMessage_not_blank p errs m :
  Forall topLevel errs -> firstMessage p errs = Some m -> m <> "".
Proof.
  induction 1 as [|err errs (_ & Hmsg & _) _ IH]; simpl; [discriminate|].
  destruct (String.eqb p (err_path err)); [|exact IH].
  intros [= <-]. exact Hmsg.
Qed.

(** For top-level paths the guard of [yupToFormErrors] works: every path
    keeps its first message. *)
Lemma yupToFormErrors_fold_first_wins (errs : list InnerError) :
  Forall topLevel errs ->
  forall f pre,
    Forall topLevel pre ->
    (forall p, assoc_get p f = str <$> firstMessage p pre) ->
    exists f',
      fold_left
        (fun errors err =>
           if negb (memberIsTruthy errors (err_path err))
           then setIn errors (err_path err) (str (err_message err))
           else errors) errs (Obj f) = Obj f'
      /\ forall p, assoc_get p f' = str <$> firstMessage p (pre ++ errs).
Proof.
  induction 1 as [|err errs Herr _ IH]; intros f pre Hpre Hinv; simpl.
  - exists f. split; [reflexivity|]. intros p. now rewrite app_nil_r.
  - assert (Hstep : exists f1,
      (if negb (memberIsTruthy (Obj f) (err_path err))
       then setIn (Obj f) (err_path err) (str (err_message err))
       else Obj f) = Obj f1
      /\ forall p, assoc_get p f1 = str <$> firstMessage p (pre ++ [err])).
    { unfold memberIsTruthy. rewrite (Hinv (err_path err)).
      destruct (firstMessage (err_path err) pre) as [m|] eqn:Hfirst; simpl.
      - pose proof (firstMessage_not_blank _ _ _ Hpre Hfirst) as Hm.
        apply String.eqb_neq in Hm. rewrite Hm. simpl.
        exists f. split; [reflexivity|]. intros p.
        rewrite firstMessage_app, Hinv.
        destruct (firstMessage p pre) as [m'|] eqn:Hp; [reflexivity|].
        destruct (String.eqb_spec p (err_path err)) as [-> | _];
          [congruence | reflexivity].
      - destruct Herr as (Hpath & _ & Hown).
        rewrite (bool_decide_eq_false_2 _ Hown). simpl.
        unfold setIn. rewrite Hpath. simpl.
        eexists. split; [reflexivity|]. intros p.
        rewrite firstMessage_app.
        destruct (String.eqb_spec p (err_path err)) as [-> | Hne].
        + now rewrite assoc_get_set, Hfirst.
        + rewrite assoc_get_set_ne by congruence. rewrite Hinv.
          now destruct (firstMessage p pre). }
    destruct Hstep as (f1 & -> & Hinv1).
    destruct (IH f1 (pre ++ [err])) as (f' & Hfold & Hinv');
      [apply Forall_app; split; [assumption | now constructor] | exact Hinv1|].
    exists f'. split; [exact Hfold|]. intros p.
    now rewrite Hinv', <- app_assoc.
Qed.

Lemma yupToFormErrors_top_level_first_wins yupError :
  inner yupError <> [] ->
  Forall topLevel (inner yupError) ->
  exists f,
    yupToFormErrors yupError = Obj f
    /\ forall p, assoc_get p f = str <$> firstMessage p (inner yupError).
Proof.
  intros Hne Hall. unfold yupToFormErrors.
  destruct (inner yupError) as [|err errs] eqn:Hinner; [congruence|].
  change (length (err :: errs) =? 0)%nat with false. cbv iota.
  apply (yupToFormErrors_fold_first_wins (err :: errs) Hall [] []).
  - constructor.
  - reflexivity.
Qed.

(** C5: what [yupToFormErrors] does with two inner errors of one path.  At
    the top-level path [city] the first message is kept; at the nested path
    [address.city] the test [errors[err.path]] reads the property named
    ["address.city"], finds nothing, and the second message replaces the
    first. *)
Theorem yupToFormErrors_nested_path_overwritten :
  yupToFormErrors flatTwice = Obj [("city", str "City is required")]
  /\ get_prop (yupToFormErrors
                 {| path := ""; message := "";
                    inner := [ {| err_path := "address.city";
                                  err_message := "City is required" |} ] |})
              "address.city" = undefined
  /\ yupToFormErrors nestedTwice
     = Obj [("address", Obj [("city", str "City is too short")])]
  /\ getIn (yupToFormErrors nestedTwice) "address.city"
     = str "City is too short".
Proof.
  repeat split; vm_compute; reflexivity.
Qed.

(** ** Schema validation *)





(** ** Merge *)

Lemma js_index_middle pre (e : tree) suf :
  js_index (pre ++ e :: suf) (length pre) = e.
Proof.
  unfold js_index. now rewrite list_lookup_middle.
Qed.

Lemma js_set_index_id l i (e : tree) :
  l !! i = Some e -> js_set_index l i e = l.
Proof.
  intros H. unfold js_set_index.
  pose proof (lookup_lt_Some _ _ _ H) as Hlt.
  apply Nat.ltb_lt in Hlt. rewrite Hlt. now apply list_insert_id.
Qed.

Lemma js_set_index_end l (e : tree) :
  js_set_index l (length l) e = l ++ [e].
Proof.
  unfold js_set_index. rewrite Nat.ltb_irrefl, Nat.sub_diag. reflexivity.
Qed.

Lemma indexOf_absent_present l p :
  In (Prim p) l -> indexOf_absent l (Prim p) = false.
Proof.
  induction l as [|x l IH]; simpl; [tauto|].
  intros [-> | Hin].
  - simpl. now rewrite prim_eqb_refl.
  - rewrite IH by assumption. apply andb_false_r.
Qed.

Lemma arrayMerge_forEach_empty options dm src : forall pre,
  Forall (fun e => isMergeableObject e = true -> dm (emptyTarget e) e = e) src ->
  arrayMerge_forEach options dm [] src (length pre) pre = pre ++ src.
Proof.
  induction src as [|e src IH]; intros pre Hall; simpl.
  - now rewrite app_nil_r.
  - apply Forall_cons in Hall as [He Hall].
    assert (Hout : js_index pre (length pre) = undefined).
    { unfold js_index. now rewrite lookup_ge_None_2. }
    rewrite Hout. simpl. rewrite js_set_index_end.
    replace (if cloneRequested options && isMergeableObject e
             then dm (emptyTarget e) e else e) with e.
    + specialize (IH (pre ++ [e]) Hall).
      rewrite length_app in IH. simpl in IH.
      rewrite Nat.add_1_r in IH. rewrite IH.
      now rewrite <- app_assoc.
    + destruct (cloneRequested options); simpl; [|reflexivity].
      destruct (isMergeableObject e) eqn:Hm; [|reflexivity].
      symmetry. now apply He.
Qed.

Lemma arrayMerge_forEach_self options dm l suf : forall pre,
  l = pre ++ suf ->
  Forall (fun e => isMergeableObject e = true -> dm e e = e) suf ->
  arrayMerge_forEach options dm l suf (length pre) l = l.
Proof.
  induction suf as [|e suf IH]; intros pre Hl Hall; simpl; [reflexivity|].
  apply Forall_cons in Hall as [He Hall].
  assert (Hat : l !! length pre = Some e).
  { subst l. apply list_lookup_middle. reflexivity. }
  assert (Hidx : js_index l (length pre) = e).
  { unfold js_index. now rewrite Hat. }
  rewrite Hidx.
  assert (Hstep :
    (if is_undefined e
     then js_set_index l (length pre)
            (if cloneRequested options && isMergeableObject e
             then dm (emptyTarget e) e else e)
     else if isMergeableObject e
          then js_set_index l (length pre) (dm e e)
          else if indexOf_absent l e then l ++ [e] else l) = l).
  { destruct e as [p | f | a].
    - destruct p; simpl;
        try (rewrite indexOf_absent_present;
             [reflexivity | subst l; apply in_elt]).
      rewrite andb_false_r. now apply js_set_index_id.
    - simpl. rewrite He by reflexivity. now apply js_set_index_id.
    - simpl. rewrite He by reflexivity. now apply js_set_index_id. }
  rewrite Hstep.
  specialize (IH (pre ++ [e])).
  rewrite length_app in IH. simpl in IH. rewrite Nat.add_1_r in IH.
  apply IH; [subst l; now rewrite <- app_assoc | assumption].
Qed.

Lemma fold_assoc_set_append (g : tree -> tree) src : forall pre,
  NoDup (keys (pre ++ src)) ->
  Forall (fun kv => g (snd kv) = snd kv) src ->
  fold_left (fun destination '(key, tv) => assoc_set key (g tv) destination)
    src pre = pre ++ src.
Proof.
  induction src as [|[k v] src IH]; intros pre Hnd Hall; simpl.
  - now rewrite app_nil_r.
  - apply Forall_cons in Hall as [Hv Hall]. simpl in Hv. rewrite Hv.
    rewrite assoc_set_fresh.
    + rewrite IH; [now rewrite <- app_assoc | | assumption].
      now rewrite <- app_assoc.
    + unfold keys in Hnd. rewrite map_app in Hnd. simpl in Hnd.
      apply NoDup_app in Hnd as (_ & Hdisj & _).
      intros Hin. apply (Hdisj k); [now apply list_elem_of_In|]. left.
Qed.

Lemma fold_left_fixed {A B} (step : A -> B -> A) (a : A) l :
  Forall (fun b => step a b = a) l -> fold_left step l a = a.
Proof.
  induction 1 as [|b l Hb _ IH]; simpl; [reflexivity|].
  now rewrite Hb.
Qed.

Lemma mergeObject_with_empty clone dm src :
  NoDup (keys src) ->
  Forall (fun kv => clone (snd kv) = snd kv) src ->
  mergeObject_with clone dm emptyObject src = src.
Proof.
  intros Hnd Hall. unfold mergeObject_with. simpl.
  enough (Hgen : forall pre, NoDup (keys (pre ++ src)) ->
            fold_left
              (fun destination '(key, sv) =>
                 if negb (isMergeableObject sv)
                    || negb (truthy (get_prop emptyObject key))
                 then assoc_set key (clone sv) destination
                 else assoc_set key (dm (get_prop emptyObject key) sv) destination)
              src pre = pre ++ src)
    by (apply (Hgen []); assumption).
  clear Hnd. induction src as [|[k v] src IH]; intros pre Hnd; simpl.
  - now rewrite app_nil_r.
  - apply Forall_cons in Hall as [Hv Hall]. simpl in Hv.
    rewrite orb_true_r, Hv, assoc_set_fresh.
    + rewrite IH; [now rewrite <- app_assoc | assumption |].
      now rewrite <- app_assoc.
    + unfold keys in Hnd. rewrite map_app in Hnd. simpl in Hnd.
      apply NoDup_app in Hnd as (_ & Hdisj & _).
      intros Hin. apply (Hdisj k); [now apply list_elem_of_In|]. left.
Qed.

Lemma mergeObject_with_self clone dm f :
  NoDup (keys f) ->
  Forall (fun kv => clone (snd kv) = snd kv /\
                    (isMergeableObject (snd kv) = true ->
                     dm (snd kv) (snd kv) = snd kv)) f ->
  mergeObject_with clone dm (Obj f) f = f.
Proof.
  intros Hnd Hall. unfold mergeObject_with.
  rewrite (fold_assoc_set_append clone f []); simpl; try assumption.
  2:{ eapply Forall_impl; [exact Hall|]. now intros kv [H _]. }
  apply fold_left_fixed. apply Forall_forall. intros [k v] Hin.
  apply list_elem_of_In in Hin.
  rewrite Forall_forall in Hall.
  destruct (Hall (k, v)) as [Hc Hd]; [now apply list_elem_of_In|].
  simpl in Hc, Hd.
  rewrite (assoc_get_In k v f Hnd Hin). simpl.
  destruct (negb (isMergeableObject v) || negb (truthy v)) eqn:Hcond.
  - rewrite Hc. now apply assoc_set_In.
  - apply orb_false_iff in Hcond as [Hm _].
    apply negb_false_iff in Hm. rewrite (Hd Hm). now apply assoc_set_In.
Qed.

Lemma clone_and_self_merge options e :
  well_formed e = true ->
  cloneUnlessOtherwiseSpecified options e = e /\
  (isMergeableObject e = true ->
   cloneDeep options e = e /\ deepmerge options e e = e).
Proof.
  induction e as [p | f IH | l IH] using tree_ind; intros Hwf.
  - split; [|discriminate].
    unfold cloneUnlessOtherwiseSpecified. simpl. now rewrite andb_false_r.
  - simpl in Hwf. apply andb_true_iff in Hwf as [Hnd Hch].
    apply bool_decide_eq_true in Hnd.
    assert (Hkids : Forall (fun kv =>
              cloneUnlessOtherwiseSpecified options (snd kv) = snd kv /\
              (isMergeableObject (snd kv) = true ->
               deepmerge options (snd kv) (snd kv) = snd kv)) f).
    { rewrite forallb_forall in Hch. rewrite Forall_forall in IH |- *.
      intros [k v] Hin. simpl.
      destruct (IH (k, v) Hin) as [Hc Hd].
      { apply (Hch (k, v)). now apply list_elem_of_In. }
      split; [exact Hc | intros Hm; now apply Hd]. }
    assert (Hclone : cloneDeep options (Obj f) = Obj f).
    { simpl. f_equal. apply mergeObject_with_empty; [assumption|].
      eapply Forall_impl; [exact Hkids|]. now intros kv [H _]. }
    split.
    + unfold cloneUnlessOtherwiseSpecified.
      destruct (cloneRequested options && isMergeableObject (Obj f)); auto.
    + intros _. split; [exact Hclone|].
      simpl. f_equal. now apply mergeObject_with_self.
  - simpl in Hwf. rewrite forallb_forall in Hwf.
    assert (Hclone : cloneDeep options (Arr l) = Arr l).
    { simpl. f_equal. unfold arrayMerge_with.
      apply (arrayMerge_forEach_empty options _ l []).
      rewrite Forall_forall in IH |- *. intros e Hin Hm.
      apply IH; auto. apply Hwf. now apply list_elem_of_In. }
    split.
    + unfold cloneUnlessOtherwiseSpecified.
      destruct (cloneRequested options && isMergeableObject (Arr l)); auto.
    + intros _. split; [exact Hclone|].
      simpl. f_equal. unfold arrayMerge_with.
      apply (arrayMerge_forEach_self options _ l l []); [reflexivity|].
      rewrite Forall_forall in IH |- *. intros e Hin Hm.
      apply IH; auto. apply Hwf. now apply list_elem_of_In.
Qed.




(** [arrayMerge] of an array with itself. *)
Lemma arrayMerge_self options l :
  forallb well_formed l = true -> arrayMerge l l options = l.
Proof.
  intros Hwf. unfold arrayMerge, arrayMerge_with.
  apply (arrayMerge_forEach_self options _ l l []); [reflexivity|].
  apply Forall_forall. intros e Hin Hm.
  apply clone_and_self_merge; [|exact Hm].
  rewrite forallb_forall in Hwf. apply Hwf. now apply list_elem_of_In.
Qed.

(** C8: the array-aware deep merge of an error tree with itself is that
    tree.  [e] is any plain object or array (nested to any depth, leaves
    primitive) in which no object has a key twice; the merge is [deepmerge]
    with the [arrayMerge] of src/Formik.tsx, under any [clone] option. *)
Theorem deepmerge_idempotent options (e : tree) :
  isMergeableObject e = true ->
  well_formed e = true ->
  deepmerge options e e = e.
Proof.
  intros Hm Hwf. now apply clone_and_self_merge.
Qed.

Lemma deepmerge_idempotent_witness :
  deepmerge formikMergeOptions sampleErrors sampleErrors = sampleErrors.
Proof.
  apply deepmerge_idempotent; vm_compute; reflexivity.
Defined.

(** ** Frames of the validation sources *)

Lemma Frame_refl h : Frame h h [].
Proof. constructor; auto. now rewrite app_nil_r. Qed.

Lemma Frame_trans h1 h2 h3 evs1 evs2 :
  Frame h1 h2 evs1 -> Frame h2 h3 evs2 -> Frame h1 h3 (evs1 ++ evs2).
Proof.
  intros F1 F2. constructor.
  - rewrite (frame_props _ _ _ F2). apply (frame_props _ _ _ F1).
  - rewrite (frame_fields _ _ _ F2). apply (frame_fields _ _ _ F1).
  - rewrite (frame_didMount _ _ _ F2). apply (frame_didMount _ _ _ F1).
  - rewrite (frame_initialValues _ _ _ F2).
    apply (frame_initialValues _ _ _ F1).
  - rewrite (frame_values _ _ _ F2). apply (frame_values _ _ _ F1).
  - rewrite (frame_trace _ _ _ F2), (frame_trace _ _ _ F1).
    now rewrite app_assoc.
  - rewrite forallb_app.
    now rewrite (frame_events _ _ _ F1), (frame_events _ _ _ F2).
  - rewrite (frame_everMounted _ _ _ F2). apply (frame_everMounted _ _ _ F1).
Qed.

(** A step that touches neither the configuration, the registered fields,
    the liveness flag, the initial values nor the trace keeps a frame. *)
Lemma Frame_same h h1 h2 evs :
  Frame h h1 evs ->
  props h2 = props h1 -> fields h2 = fields h1 ->
  didMount h2 = didMount h1 ->
  this_initialValues h2 = this_initialValues h1 ->
  values (state h2) = values (state h1) ->
  trace h2 = trace h1 ->
  everMounted h2 = everMounted h1 ->
  Frame h h2 evs.
Proof.
  intros [] ? ? ? ? ? ? ?. constructor; congruence.
Qed.

Lemma runSingle_frame field value h :
  let h' := snd (runSingleFieldLevelValidation field value h) in
  Frame h h' (singleEvents (fields h) field value)
  /\ state h' = state h
  /\ lastValidationResults h' = lastValidationResults h
  /\ lastYupValidationResult h' = lastYupValidationResult h
  /\ lastValidateHandlerResult h' = lastValidateHandlerResult h.
Proof.
  unfold runSingleFieldLevelValidation, singleEvents, bind, gets. simpl.
  destruct (assoc_get field (fields h)) as [[[validate|]]|]; simpl.
  - unfold bind, emit, external, modify. simpl.
    destruct (validate value (next_ref h)) as [[[v | p [x | e]] | e] n];
      simpl; frame.
  - frame.
  - frame.
Qed.

Lemma mapM_runSingle_frame (g : string -> tree) ks : forall h,
  let h' := snd (mapM (fun f => runSingleFieldLevelValidation f (g f)) ks h) in
  Frame h h' (flat_map (fun f => singleEvents (fields h) f (g f)) ks)
  /\ state h' = state h
  /\ lastValidationResults h' = lastValidationResults h
  /\ lastYupValidationResult h' = lastYupValidationResult h
  /\ lastValidateHandlerResult h' = lastValidateHandlerResult h.
Proof.
  induction ks as [|k ks IH]; intros h; simpl.
  - frame.
  - unfold bind.
    pose proof (runSingle_frame k (g k) h) as H1. simpl in H1.
    destruct (runSingleFieldLevelValidation k (g k) h) as [r h1].
    simpl in H1. destruct H1 as (F1 & S1 & A1 & B1 & C1).
    specialize (IH h1). simpl in IH.
    destruct (mapM _ ks h1) as [rs h2]. simpl in IH |- *.
    destruct IH as (F2 & S2 & A2 & B2 & C2).
    rewrite (frame_fields _ _ _ F1) in F2.
    split; [apply (Frame_trans _ _ _ _ _ F1 F2) | repeat split; congruence].
Qed.

Lemma runFieldLevelValidations_frame values h :
  let h' := snd (runFieldLevelValidations values h) in
  Frame h h' (fieldEvents (fields h) values)
  /\ state h' = state h
  /\ lastValidationResults h' = lastValidationResults h
  /\ lastYupValidationResult h' = lastYupValidationResult h
  /\ lastValidateHandlerResult h' = lastValidateHandlerResult h.
Proof.
  unfold runFieldLevelValidations, fieldEvents. monad. simpl.
  pose proof (mapM_runSingle_frame (fun f => getIn (content values) f)
                (fieldKeysWithValidation (fields h)) h)
    as H.
  simpl in H.
  destruct (mapM _ _ h) as [rs h1]. simpl in H.
  destruct H as (F & S & A & B & C).
  destruct (existsb isPromise rs); simpl;
    destruct (fieldErrors _ _ _ _) as [e n]; simpl;
    (split; [eapply Frame_same; [exact F | ..]; reflexivity
            | repeat split; assumption]).
Qed.

Lemma runValidationSchema_object_frame schema values h :
  let h' := snd (runValidationSchema (SchemaObject schema) values h) in
  Frame h h' (if yupHit h schema values then []
              else [SchemaValidate (schema_ref schema) values])
  /\ state h' = state h
  /\ lastValidationResults h' = lastValidationResults h
  /\ lastValidateHandlerResult h' = lastValidateHandlerResult h
  /\ yupHit h' schema values = true.
Proof.
  unfold runValidationSchema, yupHit. monad. simpl.
  destruct (lastYupValidationResult h) as [l|] eqn:Hl; simpl.
  - destruct (everySame sameYupKey _ (key l)) eqn:Hhit; simpl.
    + rewrite Hl, Hhit. frame.
    + destruct (validateYupSchemaOf values schema); simpl;
        unfold everySame; simpl;
        rewrite Nat.eqb_refl, strictEquals_refl; frame.
  - destruct (validateYupSchemaOf values schema); simpl;
      unfold everySame; simpl;
      rewrite Nat.eqb_refl, strictEquals_refl; frame.
Qed.

Lemma everySame_schema_ref s s' v ks :
  schema_ref s = schema_ref s' ->
  everySame sameYupKey [KSchema s; KValues v] ks
  = everySame sameYupKey [KSchema s'; KValues v] ks.
Proof.
  intros Hs. unfold everySame.
  destruct ks as [|[t | w] ks]; simpl; try reflexivity. now rewrite Hs.
Qed.

Lemma yupHit_schema_ref h s s' v :
  schema_ref s = schema_ref s' -> yupHit h s v = yupHit h s' v.
Proof.
  intros Hs. unfold yupHit.
  destruct (lastYupValidationResult h); [|reflexivity].
  now apply everySame_schema_ref.
Qed.

(** The schema step for a schema that is one object on every call. *)
Lemma runValidationSchema_stable_frame validationSchema values h :
  (forall n m, schema_ref (schemaOf validationSchema n)
               = schema_ref (schemaOf validationSchema m)) ->
  let h' := snd (runValidationSchema validationSchema values h) in
  let schema := schemaOf validationSchema 0 in
  Frame h h' (if yupHit h schema values then []
              else [SchemaValidate (schema_ref schema) values])
  /\ state h' = state h
  /\ lastValidationResults h' = lastValidationResults h
  /\ lastValidateHandlerResult h' = lastValidateHandlerResult h
  /\ yupHit h' schema values = true.
Proof.
  intros Hst. destruct validationSchema as [schema | factory].
  - apply runValidationSchema_object_frame.
  - simpl in Hst |- *.
    assert (Hs : schema_ref (fst (factory (next_ref h)))
                 = schema_ref (fst (factory 0))) by apply Hst.
    unfold runValidationSchema, yupHit. monad. simpl.
    destruct (factory (next_ref h)) as [s n]. simpl in Hs |- *.
    destruct (lastYupValidationResult h) as [l|] eqn:Hl; simpl.
    + rewrite (everySame_schema_ref s (fst (factory 0)) values (key l) Hs).
      destruct (everySame sameYupKey _ (key l)) eqn:Hhit; simpl.
      * rewrite Hl, Hhit. frame.
      * destruct (validateYupSchemaOf values s); simpl;
          unfold everySame; simpl;
          rewrite Hs, Nat.eqb_refl, strictEquals_refl; frame.
    + destruct (validateYupSchemaOf values s); simpl;
        unfold everySame; simpl;
        rewrite Hs, Nat.eqb_refl, strictEquals_refl; frame.
Qed.

Lemma runValidationSchema_frame validationSchema values h :
  let h' := snd (runValidationSchema validationSchema values h) in
  (exists evs, Frame h h' evs)
  /\ state h' = state h
  /\ lastValidationResults h' = lastValidationResults h.
Proof.
  destruct validationSchema as [schema | factory].
  - destruct (runValidationSchema_object_frame schema values h)
      as (F & S & A & _).
    eauto.
  - unfold runValidationSchema. monad. simpl.
    destruct (factory (next_ref h)) as [schema n]. simpl.
    destruct (lastYupValidationResult h) as [l|]; simpl.
    + destruct (everySame _ _ _); simpl.
      * split; [exists []; frame | frame].
      * destruct (validateYupSchemaOf values schema); simpl;
          (split; [eexists; frame | frame]).
    + destruct (validateYupSchemaOf values schema); simpl;
        (split; [eexists; frame | frame]).
Qed.

Lemma runValidateHandler_frame handler values h :
  let h' := snd (runValidateHandler handler values h) in
  Frame h h' [HandlerValidate values]
  /\ state h' = state h
  /\ lastValidationResults h' = lastValidationResults h
  /\ lastYupValidationResult h' = lastYupValidationResult h.
Proof.
  unfold runValidateHandler. monad. simpl.
  destruct (handler values (next_ref h)) as [[v | p s] n]; simpl.
  - destruct (strictEquals v js_undefined); frame.
  - destruct (lastValidateHandlerResult h) as [l|]; simpl.
    + destruct (key l) as [|k0 ks]; simpl; [frame|].
      destruct (sameUserResult k0 (Pending p s)); simpl; frame.
    + frame.
Qed.

Lemma schemaCached_same h1 h2 values :
  props h2 = props h1 ->
  lastYupValidationResult h2 = lastYupValidationResult h1 ->
  schemaCached h2 values = schemaCached h1 values.
Proof.
  intros Hp Hy. unfold schemaCached, yupHit. now rewrite Hp, Hy.
Qed.

Lemma runValidations_frame v h pending h' :
  runValidations v h = (pending, h') ->
  (exists evs, Frame h h' evs)
  /\ lastValidationResults h' = lastValidationResults h
  /\ pending = match cachedResult h (resultsOf pending) with
               | Some c => CacheHit (resultsOf pending) c
               | None => AwaitAll (resultsOf pending)
               end
  /\ (sameSchemaObject (props h) ->
      Frame h h' (fieldEvents (fields h) v ++ schemaEvents h v
                  ++ handlerEvents (props h) v)
      /\ schemaCached h' v = true).
Proof.
  intros Hrun.
  unfold runValidations, enqueue in Hrun.
  unfold bind at 1 in Hrun. unfold gets at 1 in Hrun.
  unfold bind at 1 in Hrun.
  pose proof (runFieldLevelValidations_frame v h) as H1. simpl in H1.
  destruct (runFieldLevelValidations v h) as [r1 h1].
  simpl in H1. destruct H1 as (F1 & S1 & A1 & B1 & C1).
  pose proof (frame_props _ _ _ F1) as P1.
  unfold bind at 1 in Hrun.
  assert (H2 : exists r2 h2 evs2,
    match validationSchema (props h) with
    | Some schema => runValidationSchema schema v
    | None => ret (Value emptyObjectRef)
    end h1 = (r2, h2)
    /\ Frame h1 h2 evs2
    /\ lastValidationResults h2 = lastValidationResults h1
    /\ (sameSchemaObject (props h) ->
        evs2 = schemaEvents h v /\ schemaCached h2 v = true)).
  { unfold sameSchemaObject, schemaEvents, schemaCached.
    destruct (validationSchema (props h)) as [validationSchema|] eqn:Hs.
    - pose proof (runValidationSchema_frame validationSchema v h1) as H.
      pose proof (runValidationSchema_stable_frame validationSchema v h1)
        as H'.
      simpl in H, H'.
      destruct (runValidationSchema _ v h1) as [r2 h2]. simpl in H, H'.
      destruct H as ((evs & F) & S & A).
      exists r2, h2, evs. split; [reflexivity|]. split; [exact F|].
      split; [exact A|]. intros Hst.
      destruct (H' Hst) as (F' & _ & _ & _ & Y).
      rewrite (frame_props _ _ _ F), P1, Hs. split; [|exact Y].
      pose proof (frame_trace _ _ _ F) as T.
      rewrite (frame_trace _ _ _ F') in T. apply app_inv_head in T.
      rewrite <- T. unfold yupHit. now rewrite B1.
    - exists (Value emptyObjectRef), h1, []. unfold ret.
      split; [reflexivity|]. split; [apply Frame_refl|].
      split; [reflexivity|]. intros _.
      rewrite P1, Hs. auto. }
  destruct H2 as (r2 & h2 & evs2 & E2 & F2 & A2 & Y2). rewrite E2 in Hrun.
  pose proof (frame_props _ _ _ F2) as P2.
  unfold bind at 1 in Hrun.
  assert (H3 : exists r3 h3,
    match validate (props h) with
    | Some handler => runValidateHandler handler v
    | None => ret (Value emptyObjectRef)
    end h2 = (r3, h3)
    /\ Frame h2 h3 (handlerEvents (props h) v)
    /\ lastValidationResults h3 = lastValidationResults h2
    /\ lastYupValidationResult h3 = lastYupValidationResult h2).
  { unfold handlerEvents.
    destruct (validate (props h)) as [handler|].
    - pose proof (runValidateHandler_frame handler v h2) as H.
      simpl in H.
      destruct (runValidateHandler handler v h2) as [r3 h3]. simpl in H.
      destruct H as (F & S & A & B). exists r3, h3. auto.
    - exists (Value emptyObjectRef), h2. unfold ret.
      split; [reflexivity|]. split; [apply Frame_refl|]. auto. }
  destruct H3 as (r3 & h3 & E3 & F3 & A3 & B3). rewrite E3 in Hrun.
  pose proof (Frame_trans _ _ _ _ _ (Frame_trans _ _ _ _ _ F1 F2) F3) as F.
  rewrite <- app_assoc in F.
  assert (A : lastValidationResults h3 = lastValidationResults h)
    by congruence.
  assert (Y : sameSchemaObject (props h) ->
              schemaCached h3 v = true).
  { intros Hso. destruct (Y2 Hso) as [_ Hc].
    rewrite (schemaCached_same h2 h3); auto.
    apply (frame_props _ _ _ F3). }
  assert (Hend : forall h4,
    props h4 = props h3 -> fields h4 = fields h3 ->
    didMount h4 = didMount h3 ->
    this_initialValues h4 = this_initialValues h3 ->
    values (state h4) = values (state h3) ->
    trace h4 = trace h3 -> everMounted h4 = everMounted h3 ->
    lastValidationResults h4 = lastValidationResults h3 ->
    lastYupValidationResult h4 = lastYupValidationResult h3 ->
    (exists evs, Frame h h4 evs)
    /\ lastValidationResults h4 = lastValidationResults h
    /\ (sameSchemaObject (props h) ->
        Frame h h4 (fieldEvents (fields h) v ++ schemaEvents h v
                    ++ handlerEvents (props h) v)
        /\ schemaCached h4 v = true)).
  { intros h4 Hp Hf Hd Hi Hv Ht He Hl Hy.
    assert (F4 : Frame h h4 (fieldEvents (fields h) v ++ evs2
                             ++ handlerEvents (props h) v))
      by (eapply Frame_same; [exact F | ..]; assumption).
    split; [eauto|]. split; [congruence|].
    intros Hso. destruct (Y2 Hso) as [<- _]. split; [exact F4|].
    rewrite <- (Y Hso). now apply schemaCached_same. }
  unfold cachedResult.
  monad. simpl in Hrun. rewrite A in Hrun.
  destruct (lastValidationResults h) as [l|] eqn:Hl; simpl in Hrun;
    [destruct (everySame sameResult [r1; r2; r3] (key l)) eqn:Hhit;
       simpl in Hrun|];
    liveness h3 Hrun;
    injection Hrun as <- <-;
    match goal with
    | |- _ /\ lastValidationResults ?h4 = _ /\ _ =>
        destruct (Hend h4) as (X1 & X2 & X3); try reflexivity;
          try (simpl; congruence)
    end;
    (split; [exact X1|]; split; [exact X2|]; split; [|exact X3]);
    simpl; rewrite ?Hhit; reflexivity.
Qed.

Lemma runValidations_settle_frame pending h r h' :
  runValidations_settle pending h = (r, h') ->
  Frame h h' []
  /\ lastYupValidationResult h' = lastYupValidationResult h
  /\ match pending with
     | CacheHit _ c =>
         r = c /\ lastValidationResults h' = lastValidationResults h
     | AwaitAll validationResults =>
         lastValidationResults h'
         = Some {| key := validationResults; result := r |}
     end.
Proof.
  destruct pending as [rs c | rs]; simpl; intros Hrun.
  - injection Hrun as <- <-. split; [apply Frame_refl | auto].
  - unfold runValidations_then in Hrun. monad. simpl in Hrun.
    liveness h Hrun; injection Hrun as <- <-;
      (split; [frame | split; reflexivity]).
Qed.

Lemma runValidations_run_post values h pending r h' :
  runValidations_run values h = (pending, r, h') ->
  (exists evs, Frame h h' evs)
  /\ (exists l, lastValidationResults h' = Some l /\ result l = r
                /\ everySame sameResult (resultsOf pending) (key l) = true)
  /\ (forall l, lastValidationResults h = Some l ->
                everySame sameResult (resultsOf pending) (key l) = true ->
                r = result l)
  /\ (sameSchemaObject (props h) ->
      Frame h h' (fieldEvents (fields h) values ++ schemaEvents h values
                  ++ handlerEvents (props h) values)
      /\ schemaCached h' values = true).
Proof.
  unfold runValidations_run. unfold bind at 1.
  destruct (runValidations values h) as [p h1] eqn:E1.
  unfold bind at 1.
  destruct (runValidations_settle p h1) as [c h2] eqn:E2.
  unfold ret. intros Hrun. injection Hrun as <- <- <-.
  destruct (runValidations_frame _ _ _ _ E1) as ((evs & F1) & A1 & Hp & Hso).
  destruct (runValidations_settle_frame _ _ _ _ E2) as (F2 & B2 & Hc).
  pose proof (Frame_trans _ _ _ _ _ F1 F2) as F. rewrite app_nil_r in F.
  split; [eauto|].
  unfold cachedResult in Hp.
  split; [|split].
  - destruct (lastValidationResults h) as [l|] eqn:Hl.
    + destruct (everySame sameResult (resultsOf p) (key l)) eqn:Hhit;
        rewrite Hp in Hc; simpl in Hc.
      * destruct Hc as [-> Hc]. exists l. rewrite Hc, A1. auto.
      * eexists. split; [exact Hc|]. simpl.
        split; [reflexivity|].
        rewrite Hp. simpl. apply everySame_refl, sameResult_refl.
    + rewrite Hp in Hc. simpl in Hc. eexists. split; [exact Hc|]. simpl.
      split; [reflexivity|].
      rewrite Hp. simpl. apply everySame_refl, sameResult_refl.
  - intros l Hl Hhit. rewrite Hl, Hhit in Hp. rewrite Hp in Hc.
    now destruct Hc.
  - intros Hobj. destruct (Hso Hobj) as [F1' Y1]. split.
    + pose proof (Frame_trans _ _ _ _ _ F1' F2) as F'.
      now rewrite app_nil_r in F'.
    + rewrite <- Y1. apply schemaCached_same; [|exact B2].
      apply (frame_props _ _ _ F2).
Qed.

(** ** The identity caches *)

Lemma keys_filter_In {A} (P : A -> bool) (f : list (string * A)) k :
  In k (keys (filter (fun kf => P (snd kf)) f)) ->
  exists a, In (k, a) f /\ P a = true.
Proof.
  unfold keys. intros Hin. apply in_map_iff in Hin as ([k' a] & <- & Hin).
  apply list_elem_of_In, list_elem_of_filter in Hin as [HP Hin].
  exists a. split; [now apply list_elem_of_In|].
  simpl in HP. now destruct (P a).
Qed.












(** A schema factory that builds a new schema object on each call: the
    schema cache, keyed on the schema object, misses, and the second call
    validates against the schema again. *)
Example runValidations_twice_fresh_schema :
  let run1 := runValidations_run filledName freshSchemaForm in
  let run2 := runValidations_run filledName (snd run1) in
  trace (snd run1) = [SchemaValidate 10 filledName]
  /\ trace (snd run2)
     = [SchemaValidate 10 filledName; SchemaValidate 13 filledName]
  /\ strictEquals (snd (fst run2)) (snd (fst run1)) = false.
Proof.
  repeat split; vm_compute; reflexivity.
Qed.

(** A field validator that reports nothing through a promise: the
    field-level result is a new promise on every call, so the second call
    merges again and resolves to a new tree. *)
Example runValidations_twice_async :
  let run1 := runValidations_run blankName asyncNameForm in
  let run2 := runValidations_run blankName (snd run1) in
  content (snd (fst run1)) = emptyObject
  /\ content (snd (fst run2)) = emptyObject
  /\ strictEquals (snd (fst run2)) (snd (fst run1)) = false.
Proof.
  repeat split; vm_compute; reflexivity.
Qed.

(** ** Submit *)

Lemma lifecycle_frame l h :
  let h' := snd (lifecycle l h) in
  props h' = props h /\ fields h' = fields h
  /\ this_initialValues h' = this_initialValues h
  /\ state h' = state h /\ trace h' = trace h
  /\ didMount h' = liveAfter l (didMount h).
Proof.
  destruct l; simpl; auto 10.
Qed.

(** The validation phase of a submit adds validator calls only, keeps the
    values, and leaves the liveness flag to the lifecycle. *)
Lemma submitForm_validate_post l1 l2 l3 h c h1 :
  submitForm_validate l1 l2 l3 h = (c, h1) ->
  props h1 = props h
  /\ values (state h1) = values (state h)
  /\ didMount h1 = liveAfter l3 (liveAfter l2 (liveAfter l1 (didMount h)))
  /\ exists evs, trace h1 = trace h ++ evs
                 /\ forallb isValidatorCall evs = true.
Proof.
  unfold submitForm_validate. unfold bind at 1.
  destruct (submitForm h) as [v ha] eqn:Ea.
  assert (Fa : Frame h ha []).
  { unfold submitForm in Ea. monad. simpl in Ea.
    liveness h Ea; injection Ea as <- <-; frame. }
  unfold bind at 1.
  pose proof (lifecycle_frame l1 ha) as Lb.
  destruct (lifecycle l1 ha) as [[] hb]. simpl in Lb.
  destruct Lb as (Pb & Fb & Ib & Sb & Tb & Db).
  unfold bind at 1.
  destruct (runValidations v hb) as [p hc] eqn:Ec.
  destruct (runValidations_frame _ _ _ _ Ec) as ((evs & Fc) & _).
  unfold bind at 1.
  pose proof (lifecycle_frame l2 hc) as Ld.
  destruct (lifecycle l2 hc) as [[] hd]. simpl in Ld.
  destruct Ld as (Pd & Fd & Id & Sd & Td & Dd).
  unfold bind at 1.
  destruct (runValidations_settle p hd) as [c' he] eqn:Ee.
  destruct (runValidations_settle_frame _ _ _ _ Ee) as (Fe & _).
  unfold bind at 1.
  pose proof (lifecycle_frame l3 he) as Lf.
  destruct (lifecycle l3 he) as [[] hf]. simpl in Lf.
  destruct Lf as (Pf & Ff & If & Sf & Tf & Df).
  unfold ret. intros E. injection E as <- <-.
  split.
  { rewrite Pf, (frame_props _ _ _ Fe), Pd, (frame_props _ _ _ Fc), Pb.
    apply (frame_props _ _ _ Fa). }
  split.
  { rewrite Sf, (frame_values _ _ _ Fe), Sd, (frame_values _ _ _ Fc), Sb.
    apply (frame_values _ _ _ Fa). }
  split.
  { rewrite Df, (frame_didMount _ _ _ Fe), Dd, (frame_didMount _ _ _ Fc), Db.
    now rewrite (frame_didMount _ _ _ Fa). }
  exists evs. split; [|apply (frame_events _ _ _ Fc)].
  rewrite Tf, (frame_trace _ _ _ Fe), app_nil_r, Td, (frame_trace _ _ _ Fc),
    Tb, (frame_trace _ _ _ Fa).
  now rewrite app_nil_r.
Qed.

Lemma filter_validator_calls evs :
  forallb isValidatorCall evs = true -> filter isOnSubmit evs = [].
Proof.
  induction evs as [|e evs IH]; simpl; [reflexivity|].
  intros H. apply andb_true_iff in H as [He H].
  destruct e; simpl in *; try discriminate; auto.
Qed.

(** The continuation of [submitForm] on a live holder, whatever run the
    merged tree comes from. *)
Lemma submitForm_then_live combinedErrors h :
  didMount h = true ->
  let h' := snd (submitForm_then combinedErrors h) in
  ((length (object_keys (content combinedErrors)) > 0)%nat ->
   trace h' = trace h /\ state h' = with_isSubmitting false (state h))
  /\ (length (object_keys (content combinedErrors)) = 0%nat ->
      trace h' = trace h ++ [OnSubmit (values (state h)) getFormikActions]).
Proof.
  intros Hlive. unfold submitForm_then. split.
  - intros Hkeys.
    destruct (length (object_keys (content combinedErrors)) =? 0)%nat eqn:Hz;
      [apply Nat.eqb_eq in Hz; lia|].
    monad. simpl. live Hlive. split; reflexivity.
  - intros Hkeys. rewrite Hkeys. simpl. unfold executeSubmit. monad. simpl.
    destruct (onSubmit _ _ _ _) as [[] n]. reflexivity.
Qed.

(** C2: [submitForm()] on a holder that is live and stays live.  When the
    merged error tree has at least one key, the run adds no [onSubmit] call
    and ends with [isSubmitting = false]; when it has none, [onSubmit] is
    called with the current values and the Action Facade. *)
Theorem submitForm_valid_or_not (h : Formik) (combinedErrors : jsval)
    (h1 : Formik) :
  didMount h = true ->
  submitForm_validate Stay Stay Stay h = (combinedErrors, h1) ->
  let h2 := snd (submitForm_run Stay Stay Stay h) in
  ((length (object_keys (content combinedErrors)) > 0)%nat ->
   filter isOnSubmit (trace h2) = filter isOnSubmit (trace h)
   /\ isSubmitting (state h2) = false)
  /\ (length (object_keys (content combinedErrors)) = 0%nat ->
      trace h2 = trace h1 ++ [OnSubmit (values (state h)) getFormikActions]).
Proof.
  intros Hlive E h2.
  destruct (submitForm_validate_post _ _ _ _ _ _ E)
    as (P & V & D & evs & T & Q).
  simpl in D. rewrite Hlive in D.
  assert (E2 : h2 = snd (submitForm_then combinedErrors h1)).
  { subst h2. unfold submitForm_run, bind. now rewrite E. }
  rewrite E2. unfold submitForm_then. split.
  - intros Hkeys.
    destruct (length (object_keys (content combinedErrors)) =? 0)%nat eqn:Hz;
      [apply Nat.eqb_eq in Hz; lia|].
    monad. simpl. live D. split; [|reflexivity].
    rewrite T, filter_app, (filter_validator_calls evs Q).
    now rewrite app_nil_r.
  - intros Hkeys. rewrite Hkeys. simpl.
    unfold executeSubmit. monad. simpl.
    destruct (onSubmit _ _ _ _) as [[] n]. simpl. now rewrite V.
Qed.

Lemma submitForm_valid_or_not_witness :
  let invalid := snd (submitForm_run Stay Stay Stay requiredNameForm) in
  let valid := snd (submitForm_run Stay Stay Stay schemaForm) in
  didMount requiredNameForm = true
  /\ filter isOnSubmit (trace invalid) = []
  /\ isSubmitting (state invalid) = false
  /\ filter isOnSubmit (trace valid) = [OnSubmit filledName getFormikActions].
Proof.
  intros invalid valid.
  destruct (submitForm_valid_or_not requiredNameForm
              (fst (submitForm_validate Stay Stay Stay requiredNameForm))
              (snd (submitForm_validate Stay Stay Stay requiredNameForm)))
    as [Hinvalid _]; [reflexivity | vm_compute; reflexivity |].
  destruct (submitForm_valid_or_not schemaForm
              (fst (submitForm_validate Stay Stay Stay schemaForm))
              (snd (submitForm_validate Stay Stay Stay schemaForm)))
    as [_ Hvalid]; [reflexivity | vm_compute; reflexivity |].
  destruct Hinvalid as [H1 H2]; [vm_compute; lia|].
  split; [reflexivity|]. split; [exact H1|]. split; [exact H2|].
  fold valid in Hvalid. rewrite Hvalid by (vm_compute; reflexivity).
  vm_compute. reflexivity.
Defined.

(** C10: the success branch of [submitForm()] has no liveness check.
    Whatever happened to the holder while validation was pending, a merged
    tree with zero keys makes [onSubmit] fire with the current values and the
    Action Facade; only the failing branch looks at the liveness flag, and
    does nothing on a holder that is not live. *)
Theorem submitForm_success_unguarded (h : Formik) (l1 l2 l3 : Lifecycle)
    (combinedErrors : jsval) (h1 : Formik) :
  submitForm_validate l1 l2 l3 h = (combinedErrors, h1) ->
  let h2 := snd (submitForm_run l1 l2 l3 h) in
  didMount h1 = liveAfter l3 (liveAfter l2 (liveAfter l1 (didMount h)))
  /\ (length (object_keys (content combinedErrors)) = 0%nat ->
      trace h2
      = trace h1 ++ [OnSubmit (values (state h1)) getFormikActions])
  /\ (length (object_keys (content combinedErrors)) <> 0%nat ->
      didMount h1 = false -> h2 = h1).
Proof.
  intros E h2.
  destruct (submitForm_validate_post _ _ _ _ _ _ E) as (_ & _ & D & _).
  assert (E2 : h2 = snd (submitForm_then combinedErrors h1)).
  { subst h2. unfold submitForm_run, bind. now rewrite E. }
  rewrite E2. unfold submitForm_then.
  split; [exact D|]. split.
  - intros Hkeys. rewrite Hkeys. simpl.
    unfold executeSubmit. monad. simpl.
    destruct (onSubmit _ _ _ _) as [[] n]. reflexivity.
  - intros Hkeys Hdead. apply Nat.eqb_neq in Hkeys. rewrite Hkeys.
    monad. simpl. now rewrite Hdead.
Qed.

Lemma submitForm_success_unguarded_witness :
  let h1 := snd (submitForm_validate Stay Unmount Stay schemaForm) in
  let h2 := snd (submitForm_run Stay Unmount Stay schemaForm) in
  didMount h1 = false
  /\ trace h2 = trace h1 ++ [OnSubmit filledName getFormikActions].
Proof.
  intros h1 h2.
  destruct (submitForm_success_unguarded schemaForm Stay Unmount Stay
              (fst (submitForm_validate Stay Unmount Stay schemaForm)) h1)
    as (D & Hvalid & _); [vm_compute; reflexivity|].
  split; [exact D|]. apply Hvalid. vm_compute. reflexivity.
Defined.

(** ** Setters and liveness *)

Lemma setFieldValue_not_live field value shouldValidate h :
  didMount h = false ->
  setFieldValue field value shouldValidate h = (None, h).
Proof.
  intros Hdead. unfold setFieldValue. monad. now rewrite Hdead.
Qed.

(** C3: on a holder that was torn down (mounted once, the liveness flag
    false again) the four setters [setFieldValue], [setValues], [setTouched]
    and [setFieldTouched] are no-ops: the holder, its state included, is
    left as it is and no validation run is requested.  [setFieldValue] stops
    at its own test of the flag; the updates of the other three are dropped
    with their callbacks, the component being unmounted. *)
Theorem setters_noop_after_teardown (h : Formik) (field : string)
    (value nextValues nextTouched : jsval) (isTouched shouldValidate : bool) :
  didMount h = false ->
  everMounted h = true ->
  setFieldValue field value shouldValidate h = (None, h)
  /\ setValues nextValues h = (None, h)
  /\ setTouched nextTouched h = (None, h)
  /\ setFieldTouched field isTouched shouldValidate h = (None, h).
Proof.
  intros Hdead Hmounted.
  split; [now apply setFieldValue_not_live|].
  unfold setValues, setTouched, setFieldTouched. monad.
  rewrite Hdead, Hmounted. simpl. auto.
Qed.

Lemma setters_noop_after_teardown_witness :
  didMount tornDownForm = false
  /\ everMounted tornDownForm = true
  /\ setFieldValue "name" (JPrim (PStr "Ann")) true tornDownForm
     = (None, tornDownForm)
  /\ setValues filledName tornDownForm = (None, tornDownForm)
  /\ setTouched filledName tornDownForm = (None, tornDownForm)
  /\ setFieldTouched "name" true true tornDownForm = (None, tornDownForm).
Proof.
  split; [reflexivity|]. split; [reflexivity|].
  apply (setters_noop_after_teardown tornDownForm "name"
           (JPrim (PStr "Ann")) filledName filledName true true);
    reflexivity.
Defined.

(** ** Reset *)

(** C7: from any state, [resetForm()] sets [values] and the stored initial
    values to the configured initial values, [errors] and [touched] to the
    empty tree, [status] to [undefined], [submitCount] to 0, [isSubmitting]
    and [isValidating] to false; [resetForm(nextValues)] does the same with
    [nextValues] in place of the configured initial values.  This is so on
    every holder that is mounted or not mounted yet; on an unmounted one the
    state update is dropped and the state stays as it is. *)
Theorem resetForm_restores (h : Formik) :
  (let h' := snd (resetForm js_undefined h) in
   state h' = (if unmounted h then state h
               else pristine (initialValues (props h)))
   /\ this_initialValues h' = initialValues (props h))
  /\ (forall id tree,
        let nextValues := JRef id tree in
        let h' := snd (resetForm nextValues h) in
        state h' = (if unmounted h then state h else pristine nextValues)
        /\ this_initialValues h' = nextValues).
Proof.
  split.
  - unfold resetForm. monad. simpl.
    destruct (negb (didMount h) && everMounted h); split; reflexivity.
  - intros id t. unfold resetForm. monad. simpl.
    destruct (negb (didMount h) && everMounted h); split; reflexivity.
Qed.

Lemma handleReset_then_fulfilled v h :
  handleReset_then (Fulfilled v) h = resetForm v h.
Proof. reflexivity. Qed.

Lemma handleReset_then_rejected e h :
  handleReset_then (Rejected e) h = (tt, h).
Proof. reflexivity. Qed.

(** Whenever the reset handler's promise is fulfilled with a truthy value,
    that value is what the form is reset to. *)
Lemma handleReset_run_fulfilled h handler p v n :
  onReset (props h) = Some handler ->
  handler (values (state h)) getFormikActions (next_ref h)
  = (Pending p (Fulfilled v), n) ->
  to_bool v = true ->
  unmounted h = false ->
  let h' := snd (handleReset_run Stay h) in
  state h' = pristine v /\ this_initialValues h' = v.
Proof.
  intros Hreset Hcall Htruthy Hheld.
  unfold handleReset_run, handleReset. monad. simpl.
  rewrite Hreset. simpl. rewrite Hcall. simpl.
  unfold resetForm. monad. simpl. rewrite Htruthy, Hheld.
  split; reflexivity.
Qed.

(** A reset handler that returns a value, whatever it is, leads to a reset
    to the configured initial values. *)
Lemma handleReset_run_returned h handler v n :
  onReset (props h) = Some handler ->
  handler (values (state h)) getFormikActions (next_ref h) = (Returned v, n) ->
  unmounted h = false ->
  let h' := snd (handleReset_run Stay h) in
  state h' = pristine (initialValues (props h))
  /\ this_initialValues h' = initialValues (props h).
Proof.
  intros Hreset Hcall Hheld.
  unfold handleReset_run, handleReset. monad. simpl.
  rewrite Hreset. simpl. rewrite Hcall. simpl.
  unfold resetForm. monad. simpl. rewrite Hheld. split; reflexivity.
Qed.

(** C4: [handleReset()] with a reset handler whose promise is fulfilled
    with a values object: the continuation is [resetForm] itself, so the
    fulfilment value becomes the new values and initial values; with a
    handler that returns the same object directly, the reset uses the
    configured initial values. *)
Theorem handleReset_passes_fulfilment :
  let h' := snd (handleReset_run Stay resettingForm) in
  let sync := snd (handleReset_run Stay resettingFormSync) in
  initialValues (props h') = blankName
  /\ values (state h') = filledName
  /\ this_initialValues h' = filledName
  /\ values (state sync) = blankName
  /\ this_initialValues sync = blankName.
Proof.
  repeat split; vm_compute; reflexivity.
Qed.

(** ** Derived validity *)

(** C9: the derived [isValid].  When the form is dirty (the values are
    deep-unequal to the stored initial values) it says whether [errors] has
    zero keys; when the form is not dirty it is the configured
    [isInitialValid]: the result of calling it with the props when it is a
    function, the boolean itself otherwise. *)
Theorem isValid_derivation (h : Formik) :
  to_bool (errors (state h)) = true ->
  let computed := getFormikComputedProps h in
  dirty computed
  = negb (isEqual (content (this_initialValues h))
                  (content (values (state h))))
  /\ (dirty computed = true ->
      isValid computed
      = js_bool (length (object_keys (content (errors (state h)))) =? 0)%nat)
  /\ (dirty computed = false ->
      isValid computed
      = match isInitialValid (props h) with
        | IVFun f => js_bool (f (props h))
        | IVBool b => js_bool b
        end).
Proof.
  intros Herr computed. subst computed. unfold getFormikComputedProps.
  simpl. split; [reflexivity|]. split; intros Hd; rewrite Hd.
  - now rewrite Herr.
  - reflexivity.
Qed.

Lemma isValid_derivation_witness :
  dirty (getFormikComputedProps dirtyForm) = true
  /\ isValid (getFormikComputedProps dirtyForm) = js_bool false
  /\ dirty (getFormikComputedProps initiallyValidForm) = false
  /\ isValid (getFormikComputedProps initiallyValidForm) = js_bool true.
Proof.
  destruct (isValid_derivation dirtyForm) as (D1 & V1 & _);
    [vm_compute; reflexivity|].
  destruct (isValid_derivation initiallyValidForm) as (D2 & _ & V2);
    [vm_compute; reflexivity|].
  split; [vm_compute; reflexivity|].
  split; [rewrite V1 by (vm_compute; reflexivity); vm_compute; reflexivity|].
  split; [vm_compute; reflexivity|].
  rewrite V2 by (vm_compute; reflexivity). vm_compute. reflexivity.
Defined.

(** ** Scenarios *)

(** Spec 8, first scenario: submitting a blank required name. *)
Example scenario_submit_required :
  let h := snd (submitForm_run Stay Stay Stay scenarioRequired) in
  content (touched (state h)) = Obj [("name", Prim (PBool true))]
  /\ content (errors (state h)) = Obj [("name", str "name is required")]
  /\ isSubmitting (state h) = false
  /\ filter isOnSubmit (trace h) = [].
Proof.
  repeat split; vm_compute; reflexivity.
Qed.

(** Spec 8, second scenario: [setFieldValue('age', 10)] with
    [validateOnChange]. *)
Example scenario_setFieldValue_age :
  let h := snd (setFieldValue_run "age" (JPrim (PNum 10)) scenarioAge) in
  getIn (content (values (state h))) "age" = Prim (PNum 10)
  /\ content (errors (state h)) = emptyObject.
Proof.
  repeat split; vm_compute; reflexivity.
Qed.

(** * Further properties *)

(** ** [arrayMerge]: lengths and entries *)

Lemma js_set_index_length l i (x : tree) :
  (length l <= length (js_set_index l i x))%nat
  /\ (i < length (js_set_index l i x))%nat.
Proof.
  unfold js_set_index. destruct (i <? length l)%nat eqn:Hlt.
  - apply Nat.ltb_lt in Hlt. rewrite length_insert. lia.
  - apply Nat.ltb_ge in Hlt.
    rewrite !length_app, length_replicate. simpl. lia.
Qed.

Lemma js_index_defined l i :
  is_undefined (js_index l i) = false -> (i < length l)%nat.
Proof.
  unfold js_index. intros H.
  destruct (l !! i) eqn:Hl; [eapply lookup_lt_Some; eauto | discriminate].
Qed.

Lemma arrayMerge_forEach_length options dm target source : forall i dest,
  let result := arrayMerge_forEach options dm target source i dest in
  (length dest <= length result)%nat
  /\ (i + length source <= Nat.max (length result) i)%nat
  /\ (source <> [] -> (i + length source <= length result)%nat).
Proof.
  induction source as [|e source IH]; intros i dest; simpl.
  - split; [lia|]. split; [lia | congruence].
  - set (dest' :=
      if is_undefined (js_index dest i)
      then js_set_index dest i
             (if cloneRequested options && isMergeableObject e
              then dm (emptyTarget e) e else e)
      else if isMergeableObject e
           then js_set_index dest i (dm (js_index target i) e)
           else if indexOf_absent target e then dest ++ [e] else dest).
    assert (Hstep : (length dest <= length dest')%nat
                    /\ (i < length dest')%nat).
    { subst dest'. destruct (is_undefined (js_index dest i)) eqn:Hu.
      - apply js_set_index_length.
      - apply js_index_defined in Hu.
        destruct (isMergeableObject e); [apply js_set_index_length|].
        destruct (indexOf_absent target e); [rewrite length_app; simpl|];
          lia. }
    destruct (IH (S i) dest') as (H1 & H2 & H3).
    destruct source as [|e' source'].
    + simpl in *. lia.
    + specialize (H3 ltac:(discriminate)). simpl in *. lia.
Qed.

(** X1: merging a source of primitives, none of them [undefined] (so the
    source has no hole and nothing is merged recursively), never shortens:
    the merged array is at least as long as the target and at least as long
    as the source. *)
Theorem arrayMerge_never_shortens (target source : list tree)
    (options : Options) :
  Forall (fun e => isMergeableObject e = false) source ->
  Forall (fun e => is_undefined e = false) source ->
  (length target <= length (arrayMerge target source options))%nat
  /\ (length source <= length (arrayMerge target source options))%nat.
Proof.
  intros _ _. unfold arrayMerge, arrayMerge_with.
  destruct (arrayMerge_forEach_length options (deepmerge options) target
              source 0 target) as (H1 & _ & H3).
  split; [exact H1|].
  destruct source as [|e source]; [simpl; lia|].
  specialize (H3 ltac:(discriminate)). simpl in *. lia.
Qed.

Lemma arrayMerge_never_shortens_witness :
  (1 <= length (arrayMerge [str "a"] [str "a"; str "b"; str "c"]
                  formikMergeOptions))%nat
  /\ (3 <= length (arrayMerge [str "a"] [str "a"; str "b"; str "c"]
                     formikMergeOptions))%nat.
Proof.
  apply (arrayMerge_never_shortens [str "a"] [str "a"; str "b"; str "c"]
           formikMergeOptions);
    repeat constructor.
Defined.

Lemma js_set_index_other l i j (x : tree) :
  j <> i -> (j < length l)%nat -> js_set_index l i x !! j = l !! j.
Proof.
  intros Hne Hlt. unfold js_set_index.
  destruct (i <? length l)%nat.
  - now apply list_lookup_insert_ne.
  - now rewrite lookup_app_l.
Qed.

(** One round of the [forEach] of [arrayMerge] writes at its own index or
    appends: every other entry stays. *)
Lemma arrayMerge_step_other options dm target (e : tree) i dest j :
  j <> i -> (j < length dest)%nat ->
  let dest' :=
    if is_undefined (js_index dest i)
    then js_set_index dest i
           (if cloneRequested options && isMergeableObject e
            then dm (emptyTarget e) e else e)
    else if isMergeableObject e
         then js_set_index dest i (dm (js_index target i) e)
         else if indexOf_absent target e then dest ++ [e] else dest in
  dest' !! j = dest !! j /\ (j < length dest')%nat.
Proof.
  intros Hne Hlt dest'. subst dest'.
  destruct (is_undefined (js_index dest i)).
  - split; [now apply js_set_index_other|].
    pose proof (js_set_index_length dest i
                  (if cloneRequested options && isMergeableObject e
                   then dm (emptyTarget e) e else e)). lia.
  - destruct (isMergeableObject e).
    + split; [now apply js_set_index_other|].
      pose proof (js_set_index_length dest i (dm (js_index target i) e)). lia.
    + destruct (indexOf_absent target e).
      * split; [now rewrite lookup_app_l | rewrite length_app; lia].
      * auto.
Qed.

Lemma arrayMerge_forEach_before options dm target source : forall i dest j,
  (j < i)%nat -> (j < length dest)%nat ->
  arrayMerge_forEach options dm target source i dest !! j = dest !! j.
Proof.
  induction source as [|e source IH]; intros i dest j Hji Hlt; simpl;
    [reflexivity|].
  destruct (arrayMerge_step_other options dm target e i dest j) as [H1 H2];
    [lia | assumption |].
  rewrite IH; [exact H1 | lia | exact H2].
Qed.

Lemma arrayMerge_forEach_keeps options dm target source : forall i dest j t,
  (i <= j)%nat ->
  dest !! j = Some t ->
  is_undefined t = false ->
  (forall e, source !! (j - i)%nat = Some e -> isMergeableObject e = false) ->
  arrayMerge_forEach options dm target source i dest !! j = Some t.
Proof.
  induction source as [|e source IH]; intros i dest j t Hij Hj Ht Hsrc;
    simpl; [exact Hj|].
  pose proof (lookup_lt_Some _ _ _ Hj) as Hlt.
  destruct (decide (i = j)) as [-> | Hne].
  - rewrite Nat.sub_diag in Hsrc. specialize (Hsrc e eq_refl).
    assert (Hidx : js_index dest j = t) by (unfold js_index; now rewrite Hj).
    rewrite Hidx, Ht, Hsrc.
    rewrite arrayMerge_forEach_before.
    + destruct (indexOf_absent target e); [now rewrite lookup_app_l | exact Hj].
    + lia.
    + destruct (indexOf_absent target e); [rewrite length_app|]; lia.
  - destruct (arrayMerge_step_other options dm target e i dest j) as [H1 H2];
      [lia | assumption |].
    apply IH; [lia | now rewrite H1 | exact Ht |].
    intros e' He'. apply Hsrc.
    replace (j - i)%nat with (S (j - S i)) by lia. exact He'.
Qed.

(** X2: a primitive of the source never replaces an entry of the target:
    an entry of the target that is not [undefined] is still at its index
    after the merge, unless the source has a mergeable object or array at
    that index. *)
Theorem arrayMerge_keeps_target_entry (target source : list tree)
    (options : Options) (j : nat) (t : tree) :
  target !! j = Some t ->
  is_undefined t = false ->
  (forall e, source !! j = Some e -> isMergeableObject e = false) ->
  arrayMerge target source options !! j = Some t.
Proof.
  intros Hj Ht Hsrc. unfold arrayMerge, arrayMerge_with.
  apply arrayMerge_forEach_keeps; [lia | exact Hj | exact Ht |].
  now rewrite Nat.sub_0_r.
Qed.

Lemma arrayMerge_keeps_target_entry_witness :
  arrayMerge [str "too short"; str "required"] [str "no digits"]
    formikMergeOptions !! 0%nat = Some (str "too short").
Proof.
  apply arrayMerge_keeps_target_entry.
  - reflexivity.
  - reflexivity.
  - intros e He. vm_compute in He. injection He as <-. reflexivity.
Defined.

Lemma arrayMerge_forEach_primitives options dm target source :
  forall i acc,
    (i + length source <= length target)%nat ->
    (forall j, (i <= j < i + length source)%nat ->
               is_undefined (js_index target j) = false) ->
    Forall (fun e => isMergeableObject e = false) source ->
    arrayMerge_forEach options dm target source i (target ++ acc)
    = target ++ acc ++ List.filter (indexOf_absent target) source.
Proof.
  induction source as [|e source IH]; intros i acc Hlen Hdef Hprim; simpl.
  - now rewrite app_nil_r.
  - simpl in Hlen, Hdef. apply Forall_cons in Hprim as [He Hprim].
    assert (Hidx : js_index (target ++ acc) i = js_index target i).
    { unfold js_index. rewrite lookup_app_l by lia. reflexivity. }
    rewrite Hidx, (Hdef i) by lia. rewrite He.
    destruct (indexOf_absent target e).
    + rewrite <- app_assoc.
      rewrite IH; [|lia | intros; apply Hdef; lia | assumption].
      now rewrite <- app_assoc.
    + apply IH; [lia | intros; apply Hdef; lia | assumption].
Qed.

(** X3: merging a list of primitives, none of them [undefined] (so the
    source has no hole), into a target that is at least as long and has no
    [undefined] in the positions the source covers: the target is kept as
    it is, and the primitives of the source that the target does not hold
    are appended in order (one that the target holds is skipped; one that it
    does not hold is appended as often as the source repeats it). *)
Theorem arrayMerge_primitives (target source : list tree)
    (options : Options) :
  (length source <= length target)%nat ->
  (forall j, (j < length source)%nat ->
             is_undefined (js_index target j) = false) ->
  Forall (fun e => isMergeableObject e = false) source ->
  Forall (fun e => is_undefined e = false) source ->
  arrayMerge target source options
  = target ++ List.filter (indexOf_absent target) source.
Proof.
  intros Hlen Hdef Hprim _. unfold arrayMerge, arrayMerge_with.
  pose proof (arrayMerge_forEach_primitives options (deepmerge options)
                target source 0 [] ) as H.
  rewrite app_nil_r in H. apply H; [lia | | assumption].
  intros j Hj. apply Hdef. lia.
Qed.

Lemma arrayMerge_primitives_witness :
  arrayMerge [str "a"; str "b"; str "c"] [str "b"; str "x"; str "x"]
    formikMergeOptions
  = [str "a"; str "b"; str "c"; str "x"; str "x"].
Proof.
  rewrite arrayMerge_primitives.
  - reflexivity.
  - simpl. lia.
  - intros j Hj. simpl in Hj.
    destruct j as [|[|[|j]]]; [reflexivity | reflexivity | reflexivity | lia].
  - repeat constructor.
  - repeat constructor.
Defined.

(** ** The merge of the three error trees *)

















(** ** [yupToFormErrors] on top-level paths *)

(** X6: for inner errors with top-level paths, none of them the name of a
    member every object inherits, and messages that are not blank, every
    path ends up with the first message the list has for it, and a path the
    list does not name is no key of the tree. *)
Theorem yupToFormErrors_first_message_kept (yupError : YupError)
    (p : string) :
  inner yupError <> [] ->
  Forall topLevel (inner yupError) ->
  get_prop (yupToFormErrors yupError) p
  = match firstMessage p (inner yupError) with
    | Some m => str m
    | None => undefined
    end.
Proof.
  intros Hne Hall.
  destruct (yupToFormErrors_top_level_first_wins yupError Hne Hall)
    as (f & -> & Hf).
  simpl. rewrite Hf.
  now destruct (firstMessage p (inner yupError)).
Qed.

Lemma yupToFormErrors_first_message_kept_witness :
  get_prop (yupToFormErrors flatTwice) "city" = str "City is required"
  /\ get_prop (yupToFormErrors flatTwice) "street" = undefined.
Proof.
  assert (Hall : Forall topLevel (inner flatTwice)).
  { repeat constructor; try discriminate;
      refine (bool_decide_unpack _ _); vm_compute; exact I. }
  split.
  - rewrite (yupToFormErrors_first_message_kept flatTwice "city");
      [reflexivity | discriminate | exact Hall].
  - rewrite (yupToFormErrors_first_message_kept flatTwice "street");
      [reflexivity | discriminate | exact Hall].
Defined.

(** X7: a schema error without inner errors yields a tree that holds the
    error's message at the error's path, whatever the depth of the path. *)
Theorem yupToFormErrors_single_at_path (yupError : YupError) :
  inner yupError = [] ->
  toPath (path yupError) <> [] ->
  getIn (yupToFormErrors yupError) (path yupError) = str (message yupError)
  /\ isMergeableObject (yupToFormErrors yupError) = true.
Proof.
  intros Hinner Hpath. rewrite yupToFormErrors_single by assumption.
  split; [apply getIn_setIn|].
  unfold setIn. destruct (toPath (path yupError)) as [|k rest]; [congruence|].
  simpl. unfold set_prop. simpl.
  destruct (as_index k); reflexivity.
Qed.

Lemma yupToFormErrors_single_at_path_witness :
  let yupError := {| path := "friends[1].name"; message := "Required";
                     inner := [] |} in
  getIn (yupToFormErrors yupError) "friends[1].name" = str "Required".
Proof.
  intros yupError.
  apply (yupToFormErrors_single_at_path yupError);
    [reflexivity | vm_compute; discriminate].
Defined.

(** ** The field registry *)

Lemma assoc_delete_cons {A} k k' (v : A) f :
  assoc_delete k ((k', v) :: f)
  = if String.eqb k k' then assoc_delete k f else (k', v) :: assoc_delete k f.
Proof.
  unfold assoc_delete. rewrite filter_cons. simpl.
  destruct (String.eqb k k'); reflexivity.
Qed.

Lemma assoc_get_delete {A} k (f : list (string * A)) :
  assoc_get k (assoc_delete k f) = None.
Proof.
  induction f as [|[k' v] f IH]; [reflexivity|].
  rewrite assoc_delete_cons.
  destruct (String.eqb k k') eqn:E; [exact IH|]. simpl. now rewrite E.
Qed.

Lemma assoc_get_delete_ne {A} k k' (f : list (string * A)) :
  k <> k' -> assoc_get k' (assoc_delete k f) = assoc_get k' f.
Proof.
  intros Hne. induction f as [|[k0 v] f IH]; [reflexivity|].
  rewrite assoc_delete_cons.
  destruct (String.eqb_spec k k0) as [-> | Hk]; simpl.
  - destruct (String.eqb_spec k' k0); [congruence | exact IH].
  - now rewrite IH.
Qed.

Lemma assoc_set_twice {A} k (v1 v2 : A) f :
  assoc_set k v2 (assoc_set k v1 f) = assoc_set k v2 f.
Proof.
  induction f as [|[k' v] f IH]; simpl.
  - now rewrite String.eqb_refl.
  - destruct (String.eqb k k') eqn:E; simpl.
    + now rewrite String.eqb_refl.
    + now rewrite E, IH.
Qed.

(** X8: the registry of fields is keyed by path.  Registering a path again
    replaces the earlier registration, as if only the last one had been
    made; a registered field is found under its path; an unregistered path
    is gone; and neither operation touches another path. *)
Theorem field_registry (h : Formik) (name : string) (first last : Field) :
  fields (snd (registerField name last (snd (registerField name first h))))
  = fields (snd (registerField name last h))
  /\ assoc_get name (fields (snd (registerField name last h))) = Some last
  /\ assoc_get name (fields (snd (unregisterField name h))) = None
  /\ (forall other, other <> name ->
        assoc_get other (fields (snd (registerField name last h)))
        = assoc_get other (fields h)
        /\ assoc_get other (fields (snd (unregisterField name h)))
           = assoc_get other (fields h)).
Proof.
  simpl. split; [apply assoc_set_twice|].
  split; [apply assoc_get_set|]. split; [apply assoc_get_delete|].
  intros other Hne. split.
  - apply assoc_get_set_ne. congruence.
  - apply assoc_get_delete_ne. congruence.
Qed.

Lemma field_registry_witness :
  let h := snd (registerField "email" {| field_validate := None |}
                  requiredNameForm) in
  assoc_get "email" (fields (snd (unregisterField "name" h)))
  = Some {| field_validate := None |}
  /\ assoc_get "name" (fields (snd (unregisterField "name" h))) = None.
Proof.
  intros h.
  destruct (field_registry h "name" requiredField requiredField)
    as (_ & _ & Hgone & Hother).
  destruct (Hother "email") as [_ Hkept]; [discriminate|].
  split; [rewrite Hkept; reflexivity | exact Hgone].
Defined.

Lemma In_assoc_delete {A} k k' (a : A) f :
  In (k', a) (assoc_delete k f) -> k' <> k /\ In (k', a) f.
Proof.
  unfold assoc_delete. intros Hin.
  apply list_elem_of_In, list_elem_of_filter in Hin as [HP Hin].
  simpl in HP. split; [|now apply list_elem_of_In].
  intros ->. rewrite String.eqb_refl in HP. exact HP.
Qed.

Lemma fieldEvents_fields registered values field value :
  In (FieldValidate field value) (fieldEvents registered values) ->
  In field (keys (filter (fun kf => hasValidate (snd kf)) registered)).
Proof.
  unfold fieldEvents. intros Hin.
  apply in_flat_map in Hin as (f & Hf & Hin).
  unfold singleEvents in Hin.
  destruct (assoc_get f registered) as [[[validate|]]|]; simpl in Hin;
    try tauto.
  destruct Hin as [[= -> _] | []].
  unfold fieldKeysWithValidation in Hf.
  exact (proj1 (ownPropertyKeys_In _ _) Hf).
Qed.

(** X9: once a field is unregistered, a validation run makes no call to a
    validator under its path. *)
Theorem unregistered_field_not_validated (h : Formik) (name : string)
    (v : jsval) :
  let h1 := snd (unregisterField name h) in
  let h2 := snd (runFieldLevelValidations v h1) in
  exists evs,
    trace h2 = trace h ++ evs
    /\ forall value, ~ In (FieldValidate name value) evs.
Proof.
  intros h1 h2.
  destruct (runFieldLevelValidations_frame v h1) as [F _].
  exists (fieldEvents (fields h1) v). split.
  - apply (frame_trace _ _ _ F).
  - intros value Hin. apply fieldEvents_fields in Hin.
    apply keys_filter_In in Hin as (a & Hin & _).
    apply In_assoc_delete in Hin as [Hne _]. congruence.
Qed.

Lemma singleEvents_registered registered field validate value :
  NoDup (keys registered) ->
  In (field, {| field_validate := Some validate |}) registered ->
  singleEvents registered field value = [FieldValidate field value].
Proof.
  intros Hnd Hin. unfold singleEvents.
  now rewrite (assoc_get_In _ _ _ Hnd Hin).
Qed.

(** X10: with every path registered once, a run of the field-level
    validations calls each registered validator exactly once, with the
    value its path has in [values], in the order in which [Object.keys]
    lists the fields: array-index names first, in ascending order, then the
    other names in the order of registration; so, when no field is named
    by an array index, in the order of registration. *)
Theorem field_validators_called_once (h : Formik) (v : jsval) :
  NoDup (keys (fields h)) ->
  let validated :=
    keys (filter (fun kf => hasValidate (snd kf)) (fields h)) in
  trace (snd (runFieldLevelValidations v h))
  = trace h
    ++ map (fun f => FieldValidate f (getIn (content v) f))
         (fieldKeysWithValidation (fields h))
  /\ fieldKeysWithValidation (fields h) ≡ₚ validated
  /\ (Forall (fun k => arrayIndex k = None) validated ->
      fieldKeysWithValidation (fields h) = validated).
Proof.
  intros Hnd validated.
  split; [|split;
           [apply ownPropertyKeys_perm | apply ownPropertyKeys_names]].
  destruct (runFieldLevelValidations_frame v h) as [F _].
  rewrite (frame_trace _ _ _ F). f_equal. unfold fieldEvents.
  assert (Hall : forall f,
            In f (fieldKeysWithValidation (fields h)) ->
            singleEvents (fields h) f (getIn (content v) f)
            = [FieldValidate f (getIn (content v) f)]).
  { intros f Hf. unfold fieldKeysWithValidation in Hf.
    apply (proj1 (ownPropertyKeys_In _ _)) in Hf.
    apply keys_filter_In in Hf as ([[validate|]] & Hin & Hv);
      [|discriminate].
    eapply singleEvents_registered; eauto. }
  induction (fieldKeysWithValidation (fields h))
    as [|k ks IH]; simpl; [reflexivity|].
  rewrite Hall by (now left). simpl. f_equal.
  apply IH. intros f Hf. apply Hall. now right.
Qed.

Lemma field_validators_called_once_witness :
  let h := snd (registerField "1" requiredField
                  (snd (registerField "b" requiredField schemaForm))) in
  trace (snd (runFieldLevelValidations filledName h))
  = [FieldValidate "1" undefined; FieldValidate "name" (str "Ann");
     FieldValidate "b" undefined].
Proof.
  intros h.
  destruct (field_validators_called_once h filledName) as (Htrace & _).
  - refine (bool_decide_unpack _ _). vm_compute. exact I.
  - rewrite Htrace. vm_compute. reflexivity.
Defined.

(** ** The caches of the schema and of the whole-form validator *)

Lemma runValidationSchema_object_result schema v h :
  let rh := runValidationSchema (SchemaObject schema) v h in
  exists l,
    lastYupValidationResult (snd rh) = Some l
    /\ result l = fst rh
    /\ everySame sameYupKey [KSchema schema; KValues v] (key l) = true.
Proof.
  unfold runValidationSchema. monad. simpl.
  assert (Hself : everySame sameYupKey [KSchema schema; KValues v]
                    [KSchema schema; KValues v] = true).
  { unfold everySame. simpl. now rewrite Nat.eqb_refl, strictEquals_refl. }
  destruct (lastYupValidationResult h) as [l|] eqn:Hl; simpl.
  - destruct (everySame sameYupKey _ (key l)) eqn:Hhit; simpl.
    + exists l. auto.
    + destruct (validateYupSchemaOf v schema); simpl; eexists;
        (split; [reflexivity | split; [reflexivity | exact Hself]]).
  - destruct (validateYupSchemaOf v schema); simpl; eexists;
      (split; [reflexivity | split; [reflexivity | exact Hself]]).
Qed.

Lemma runValidationSchema_hit schema v h l :
  lastYupValidationResult h = Some l ->
  everySame sameYupKey [KSchema schema; KValues v] (key l) = true ->
  runValidationSchema (SchemaObject schema) v h = (result l, h).
Proof.
  intros Hl Hhit. unfold runValidationSchema. monad. simpl.
  now rewrite Hl, Hhit.
Qed.

(** X11: [runValidationSchema] called again with the same schema object and
    the same values reference hands back the very promise of the call before
    and leaves the holder as it is: no validate call, no new promise. *)
Theorem runValidationSchema_repeat (schema : Schema) (v : jsval)
    (h : Formik) :
  let first := runValidationSchema (SchemaObject schema) v h in
  runValidationSchema (SchemaObject schema) v (snd first) = first.
Proof.
  intros first.
  destruct (runValidationSchema_object_result schema v h)
    as (l & Hl & Hr & Hhit).
  fold first in Hl, Hr.
  rewrite (runValidationSchema_hit schema v (snd first) l Hl Hhit), Hr.
  now destruct first.
Qed.

(** X12: the schema cache compares references, not contents: when the cache
    was filled for another values object, a call validates again, also when
    the new values have the same content. *)
Theorem runValidationSchema_other_reference (schema schema0 : Schema)
    (v v0 : jsval) (h : Formik) (l : ValidationResult YupKey PromiseOrValue) :
  lastYupValidationResult h = Some l ->
  key l = [KSchema schema0; KValues v0] ->
  strictEquals v v0 = false ->
  trace (snd (runValidationSchema (SchemaObject schema) v h))
  = trace h ++ [SchemaValidate (schema_ref schema) v].
Proof.
  intros Hl Hkey Hne.
  destruct (runValidationSchema_object_frame schema v h) as [F _].
  rewrite (frame_trace _ _ _ F). f_equal.
  unfold yupHit. rewrite Hl, Hkey. unfold everySame. simpl.
  rewrite Hne. now rewrite andb_false_r.
Qed.

Lemma runValidationSchema_other_reference_witness :
  let h := snd (runValidationSchema (SchemaObject acceptAll) filledName
                  schemaForm) in
  let sameContent := JRef 7 (content filledName) in
  trace (snd (runValidationSchema (SchemaObject acceptAll) sameContent h))
  = [SchemaValidate 5 filledName; SchemaValidate 5 sameContent].
Proof.
  intros h sameContent.
  rewrite (runValidationSchema_other_reference acceptAll acceptAll
             sameContent filledName h
             {| key := [KSchema acceptAll; KValues filledName];
                result := Promise 10 emptyObjectRef |});
    reflexivity.
Defined.

(** X13: a whole-form validator that returns the same promise object on
    every call is still called on every run, but the promise the holder
    derives from it is made once: the second run hands back the very result
    of the first and allocates nothing. *)
Theorem runValidateHandler_same_promise
    (handler : jsval -> External UserResult) (v : jsval) (p : nat)
    (s : Settled) (h : Formik) :
  (forall n, handler v n = (Pending p s, n)) ->
  let first := runValidateHandler handler v h in
  let second := runValidateHandler handler v (snd first) in
  fst second = fst first
  /\ next_ref (snd second) = next_ref (snd first)
  /\ trace (snd second) = trace h ++ [HandlerValidate v; HandlerValidate v]
  /\ (lastValidateHandlerResult h = None ->
      settled (fst first)
      = match s with Fulfilled _ => emptyObjectRef | Rejected errs => errs end).
Proof.
  intros Hsame first second. subst second first.
  unfold runValidateHandler. monad. simpl.
  rewrite !Hsame. simpl.
  destruct (lastValidateHandlerResult h) as [l|] eqn:Hl; simpl.
  - destruct (key l) as [|k0 ks] eqn:Hk; simpl.
    + rewrite ?Hsame. simpl. rewrite ?Nat.eqb_refl. simpl.
      rewrite <- ?app_assoc. repeat split; discriminate.
    + destruct (sameUserResult k0 (Pending p s)) eqn:Hsm; simpl.
      * rewrite ?Hsame. simpl. rewrite ?Hl. simpl. rewrite ?Hk. simpl.
        rewrite ?Hsm. simpl. rewrite <- ?app_assoc.
        repeat split; discriminate.
      * rewrite ?Hsame. simpl. rewrite ?Nat.eqb_refl. simpl.
        rewrite <- ?app_assoc. repeat split; discriminate.
  - rewrite ?Hsame. simpl. rewrite ?Nat.eqb_refl. simpl.
    rewrite <- ?app_assoc. repeat split.
Qed.

Lemma runValidateHandler_same_promise_witness :
  let handler : jsval -> External UserResult :=
    fun _ n => (Pending 3 (Rejected (JRef 4 (Obj [("name", str "taken")]))), n) in
  let first := runValidateHandler handler filledName requiredNameForm in
  let second := runValidateHandler handler filledName (snd first) in
  fst second = fst first
  /\ settled (fst first) = JRef 4 (Obj [("name", str "taken")]).
Proof.
  intros handler first second.
  destruct (runValidateHandler_same_promise handler filledName 3
              (Rejected (JRef 4 (Obj [("name", str "taken")])))
              requiredNameForm)
    as (Hsame & _ & _ & Hsettled); [reflexivity|].
  split; [exact Hsame | apply Hsettled; reflexivity].
Defined.

(** ** The field-level error tree *)

Lemma fieldErrors_cons k ks e errs prev n :
  fieldErrors (k :: ks) (e :: errs) prev n
  = if to_bool e
    then fieldErrors ks errs
           (JRef n (setIn_path (content prev) (toPath k) (content e))) (S n)
    else fieldErrors ks errs prev n.
Proof. reflexivity. Qed.

Lemma fieldErrors_nil_r ks prev n : fieldErrors ks [] prev n = (prev, n).
Proof. now destruct ks. Qed.

Lemma get_set_prop_object_ne v k k' x :
  isObject v = true -> k <> k' ->
  get_prop (set_prop v k x) k' = get_prop v k'.
Proof.
  intros Hobj Hne. destruct v as [p | f | l]; try discriminate.
  simpl. now rewrite (assoc_get_set_ne k k' x f Hne).
Qed.

Lemma set_prop_object v k x :
  isObject v = true -> isObject (set_prop v k x) = true.
Proof. intros Hobj. destruct v; try discriminate. reflexivity. Qed.

Lemma fieldErrors_other ks : forall errs prev n k,
  isObject (content prev) = true ->
  Forall (fun f => toPath f = [f]) ks ->
  ~ In k ks ->
  get_prop (content (fst (fieldErrors ks errs prev n))) k
  = get_prop (content prev) k.
Proof.
  induction ks as [|k0 ks IH]; intros errs prev n k Hobj Htop Hnotin.
  - now destruct errs.
  - destruct errs as [|e errs]; [reflexivity|].
    rewrite fieldErrors_cons.
    apply Forall_cons in Htop as [Hk0 Htop].
    assert (Hne : k0 <> k) by (intros ->; apply Hnotin; now left).
    assert (Hrest : ~ In k ks) by (intros Hin; apply Hnotin; now right).
    destruct (to_bool e).
    + rewrite Hk0. simpl.
      rewrite IH by (simpl; try apply set_prop_object; assumption).
      now apply get_set_prop_object_ne.
    + now apply IH.
Qed.

(** X14: the reduce of [runFieldLevelValidations] stores each truthy result
    under the name of the field at the same index and skips the falsy ones:
    for top-level names registered once, the tree has at a field exactly
    what that field's validator produced. *)
Theorem fieldErrors_at_field (ks : list string) (errs : list jsval)
    (prev : jsval) (n i : nat) (k : string) (e : jsval) :
  isObject (content prev) = true ->
  NoDup ks ->
  Forall (fun f => toPath f = [f]) ks ->
  ks !! i = Some k ->
  errs !! i = Some e ->
  get_prop (content (fst (fieldErrors ks errs prev n))) k
  = if to_bool e then content e else get_prop (content prev) k.
Proof.
  revert errs prev n i.
  induction ks as [|k0 ks IH]; intros errs prev n i Hobj Hnd Htop Hk He;
    [discriminate|].
  destruct errs as [|e0 errs]; [discriminate|].
  rewrite fieldErrors_cons.
  apply NoDup_cons in Hnd as [Hk0 Hnd].
  assert (Hnotin : ~ In k0 ks) by now rewrite <- list_elem_of_In.
  apply Forall_cons in Htop as [Hp0 Htop].
  destruct i as [|i]; simpl in Hk, He.
  - injection Hk as ->. injection He as ->.
    destruct (to_bool e) eqn:Ht.
    + rewrite Hp0. simpl.
      rewrite fieldErrors_other
        by (simpl; try apply set_prop_object; assumption).
      apply get_set_prop.
    + now apply fieldErrors_other.
  - assert (Hne : k0 <> k).
    { intros ->. apply Hk0. eapply list_elem_of_lookup_2. exact Hk. }
    destruct (to_bool e0).
    + rewrite Hp0. simpl.
      rewrite (IH errs _ (S n) i)
        by (simpl; try apply set_prop_object; assumption).
      simpl. now rewrite get_set_prop_object_ne by assumption.
    + now apply (IH errs prev n i).
Qed.

Lemma fieldErrors_at_field_witness :
  get_prop
    (content (fst (fieldErrors ["name"; "age"]
                     [JPrim (PStr "Required"); JPrim (PStr "")]
                     emptyObjectRef 7)))
    "name"
  = str "Required".
Proof.
  apply (fieldErrors_at_field ["name"; "age"]
           [JPrim (PStr "Required"); JPrim (PStr "")] emptyObjectRef 7 0
           "name" (JPrim (PStr "Required")));
    try reflexivity.
  - refine (bool_decide_unpack _ _). vm_compute. exact I.
  - repeat constructor.
Defined.

(** X15: when no field validator produced an error, the reduce returns the
    shared empty object it started from, the same reference on every run,
    and allocates nothing. *)
Theorem fieldErrors_all_falsy (ks : list string) (errs : list jsval)
    (prev : jsval) (n : nat) :
  Forall (fun e => to_bool e = false) errs ->
  fieldErrors ks errs prev n = (prev, n).
Proof.
  revert errs. induction ks as [|k ks IH]; intros errs Hall.
  - now destruct errs.
  - destruct errs as [|e errs]; [reflexivity|].
    apply Forall_cons in Hall as [He Hall].
    rewrite fieldErrors_cons, He. now apply IH.
Qed.

Lemma fieldErrors_all_falsy_witness :
  fieldErrors ["name"; "age"] [js_undefined; JPrim (PStr "")]
    emptyObjectRef 7
  = (emptyObjectRef, 7).
Proof.
  apply (fieldErrors_all_falsy ["name"; "age"]
           [js_undefined; JPrim (PStr "")] emptyObjectRef 7).
  repeat constructor.
Defined.

(** ** What a validation run writes *)

Lemma runValidations_state v h pending h' :
  runValidations v h = (pending, h') ->
  didMount h' = didMount h
  /\ state h'
     = match pending with
       | CacheHit _ c =>
           if didMount h
           then with_errors c (with_isValidating false (state h))
           else state h
       | AwaitAll _ =>
           if unmounted h then state h
           else with_isValidating true (state h)
       end
  /\ everMounted h' = everMounted h.
Proof.
  intros Hrun.
  unfold runValidations, enqueue in Hrun.
  unfold bind at 1 in Hrun. unfold gets at 1 in Hrun.
  unfold bind at 1 in Hrun.
  pose proof (runFieldLevelValidations_frame v h) as H1. simpl in H1.
  destruct (runFieldLevelValidations v h) as [r1 h1].
  simpl in H1. destruct H1 as (F1 & S1 & A1 & _).
  unfold bind at 1 in Hrun.
  assert (H2 : exists r2 h2,
    match validationSchema (props h) with
    | Some schema => runValidationSchema schema v
    | None => ret (Value emptyObjectRef)
    end h1 = (r2, h2)
    /\ didMount h2 = didMount h1 /\ state h2 = state h1
    /\ lastValidationResults h2 = lastValidationResults h1
    /\ everMounted h2 = everMounted h1).
  { destruct (validationSchema (props h)) as [schema|].
    - pose proof (runValidationSchema_frame schema v h1) as H. simpl in H.
      destruct (runValidationSchema schema v h1) as [r2 h2]. simpl in H.
      destruct H as ((evs & F) & S & A).
      exists r2, h2. split; [reflexivity|].
      split; [apply (frame_didMount _ _ _ F)|].
      split; [exact S|]. split; [exact A|].
      apply (frame_everMounted _ _ _ F).
    - exists (Value emptyObjectRef), h1. unfold ret. auto. }
  destruct H2 as (r2 & h2 & E2 & D2 & S2 & A2 & M2). rewrite E2 in Hrun.
  unfold bind at 1 in Hrun.
  assert (H3 : exists r3 h3,
    match validate (props h) with
    | Some handler => runValidateHandler handler v
    | None => ret (Value emptyObjectRef)
    end h2 = (r3, h3)
    /\ didMount h3 = didMount h2 /\ state h3 = state h2
    /\ lastValidationResults h3 = lastValidationResults h2
    /\ everMounted h3 = everMounted h2).
  { destruct (validate (props h)) as [handler|].
    - pose proof (runValidateHandler_frame handler v h2) as H. simpl in H.
      destruct (runValidateHandler handler v h2) as [r3 h3]. simpl in H.
      destruct H as (F & S & A & _).
      exists r3, h3. split; [reflexivity|].
      split; [apply (frame_didMount _ _ _ F)|].
      split; [exact S|]. split; [exact A|].
      apply (frame_everMounted _ _ _ F).
    - exists (Value emptyObjectRef), h2. unfold ret. auto. }
  destruct H3 as (r3 & h3 & E3 & D3 & S3 & A3 & M3). rewrite E3 in Hrun.
  assert (D : didMount h3 = didMount h).
  { rewrite D3, D2. apply (frame_didMount _ _ _ F1). }
  assert (M : everMounted h3 = everMounted h).
  { rewrite M3, M2. apply (frame_everMounted _ _ _ F1). }
  assert (S : state h3 = state h) by congruence.
  monad. simpl in Hrun. rewrite <- D, <- M, <- S.
  destruct (lastValidationResults h3) as [l|]; simpl in Hrun;
    [destruct (everySame sameResult [r1; r2; r3] (key l)); simpl in Hrun|];
    liveness h3 Hrun; injection Hrun as <- <-; simpl;
    rewrite ?Dm, ?Em; auto.
Qed.

Lemma runValidations_settle_state pending h r h' :
  runValidations_settle pending h = (r, h') ->
  didMount h' = didMount h
  /\ state h'
     = match pending with
       | CacheHit _ _ => state h
       | AwaitAll _ =>
           if didMount h
           then with_errors r (with_isValidating false (state h))
           else state h
       end.
Proof.
  destruct pending as [rs c | rs]; simpl; intros Hrun.
  - injection Hrun as <- <-. auto.
  - unfold runValidations_then in Hrun. monad. simpl in Hrun.
    liveness h Hrun; injection Hrun as <- <-;
      simpl; rewrite ?Dm; split; reflexivity.
Qed.

(** X16: on a mounted holder, a validation run that completes writes two
    members of the state and no other: [errors] becomes the tree the run
    resolves to, and [isValidating] ends [false]. *)
Theorem runValidations_live_outcome (v : jsval) (h h' : Formik)
    (pending : PendingValidation) (r : jsval) :
  didMount h = true ->
  runValidations_run v h = (pending, r, h') ->
  state h' = with_errors r (with_isValidating false (state h)).
Proof.
  intros Hlive Hrun.
  unfold runValidations_run in Hrun. unfold bind at 1 in Hrun.
  destruct (runValidations v h) as [p h1] eqn:E1.
  unfold bind at 1 in Hrun.
  destruct (runValidations_settle p h1) as [c h2] eqn:E2.
  unfold ret in Hrun. injection Hrun as <- <- <-.
  destruct (runValidations_state _ _ _ _ E1) as (D1 & S1 & _).
  destruct (runValidations_settle_state _ _ _ _ E2) as [_ S2].
  pose proof (runValidations_settle_frame _ _ _ _ E2) as (_ & _ & Hr).
  rewrite S2, D1, S1. unfold unmounted. rewrite Hlive.
  destruct p as [rs c0 | rs].
  - destruct Hr as [-> _]. reflexivity.
  - reflexivity.
Qed.

Lemma runValidations_live_outcome_witness :
  let run := runValidations_run filledName requiredNameForm in
  state (snd run)
  = with_errors (snd (fst run))
      (with_isValidating false (state requiredNameForm)).
Proof.
  intros run.
  apply (runValidations_live_outcome filledName requiredNameForm (snd run)
           (fst (fst run)) (snd (fst run))).
  - reflexivity.
  - vm_compute. reflexivity.
Defined.

(** X17: a validation run on a holder that was torn down (mounted once,
    the liveness flag false again) leaves the state as it is: the guarded
    writes of [errors] and [isValidating] are skipped, and the unguarded
    [setState({ isValidating: true })] is dropped with the component
    unmounted.  The validators are called all the same. *)
Theorem runValidations_not_live_outcome (v : jsval) (h h' : Formik)
    (pending : PendingValidation) (r : jsval) :
  didMount h = false ->
  everMounted h = true ->
  runValidations_run v h = (pending, r, h') ->
  state h' = state h
  /\ exists evs, trace h' = trace h ++ evs
                 /\ (sameSchemaObject (props h) ->
                     evs = fieldEvents (fields h) v ++ schemaEvents h v
                           ++ handlerEvents (props h) v).
Proof.
  intros Hdead Hmounted Hrun.
  destruct (runValidations_run_post _ _ _ _ _ Hrun)
    as ((evs & F) & _ & _ & Hso).
  unfold runValidations_run in Hrun. unfold bind at 1 in Hrun.
  destruct (runValidations v h) as [p h1] eqn:E1.
  unfold bind at 1 in Hrun.
  destruct (runValidations_settle p h1) as [c h2] eqn:E2.
  unfold ret in Hrun. injection Hrun as <- <- <-.
  destruct (runValidations_state _ _ _ _ E1) as (D1 & S1 & _).
  destruct (runValidations_settle_state _ _ _ _ E2) as [_ S2].
  split.
  - rewrite S2, D1, S1. unfold unmounted. rewrite Hdead, Hmounted.
    now destruct p.
  - exists evs. split; [apply (frame_trace _ _ _ F)|].
    intros Hobj. destruct (Hso Hobj) as [F' _].
    pose proof (frame_trace _ _ _ F) as T.
    rewrite (frame_trace _ _ _ F') in T.
    now apply app_inv_head in T.
Qed.

Lemma runValidations_not_live_outcome_witness :
  let run := runValidations_run filledName tornDownForm in
  state (snd run) = state tornDownForm
  /\ trace (snd run) = [FieldValidate "name" (str "Ann")].
Proof.
  intros run.
  destruct (runValidations_not_live_outcome filledName tornDownForm
              (snd run) (fst (fst run)) (snd (fst run)))
    as (Hstate & evs & Htrace & Hevs);
    [reflexivity | reflexivity | vm_compute; reflexivity |].
  split; [exact Hstate|].
  rewrite Htrace, Hevs by reflexivity. vm_compute. reflexivity.
Defined.

(** ** Submission bookkeeping *)

(** X18: the validation phase of [submitForm()] on a holder that is mounted
    and stays so ends in a state with the submit count raised by one,
    [isSubmitting] set, every leaf of the values marked touched, [errors]
    the merged tree and [isValidating] cleared; values, status and error are
    the ones before. *)
Theorem submitForm_bookkeeping (h h1 : Formik) (combinedErrors : jsval) :
  didMount h = true ->
  submitForm_validate Stay Stay Stay h = (combinedErrors, h1) ->
  state h1
  = {| values := values (state h);
       errors := combinedErrors;
       touched := JRef (next_ref h)
                    (setNestedObjectValues (content (values (state h)))
                       (Prim (PBool true)));
       isSubmitting := true;
       isValidating := false;
       submitCount := submitCount (state h) + 1;
       status := status (state h);
       error := error (state h) |}.
Proof.
  intros Hlive Hrun.
  unfold submitForm_validate in Hrun. unfold bind at 1 in Hrun.
  destruct (submitForm h) as [v ha] eqn:Ea.
  assert (Ha : didMount ha = true
               /\ state ha
                  = with_submitCount (submitCount (state h) + 1)
                      (with_isSubmitting true
                         (with_touched
                            (JRef (next_ref h)
                               (setNestedObjectValues
                                  (content (values (state h)))
                                  (Prim (PBool true))))
                            (state h)))).
  { unfold submitForm in Ea. monad. simpl in Ea.
    rewrite Hlive in Ea. simpl in Ea.
    injection Ea as <- <-. split; [exact Hlive | reflexivity]. }
  destruct Ha as [Da Sa].
  unfold bind at 1 in Hrun. simpl lifecycle in Hrun. unfold ret at 1 in Hrun.
  unfold bind at 1 in Hrun.
  destruct (runValidations v ha) as [p hb] eqn:Eb.
  unfold bind at 1 in Hrun. unfold ret at 1 in Hrun.
  unfold bind at 1 in Hrun.
  destruct (runValidations_settle p hb) as [c hc] eqn:Ec.
  unfold bind at 1 in Hrun. unfold ret in Hrun.
  injection Hrun as <- <-.
  destruct (runValidations_state _ _ _ _ Eb) as (Db & Sb & _).
  destruct (runValidations_settle_state _ _ _ _ Ec) as [_ Sc].
  pose proof (runValidations_settle_frame _ _ _ _ Ec) as (_ & _ & Hr).
  unfold unmounted in Sb. rewrite Da in Db, Sb. simpl in Sb.
  rewrite Sc, Db, Sb, Sa.
  destruct p as [rs c0 | rs].
  - destruct Hr as [-> _]. reflexivity.
  - reflexivity.
Qed.

Lemma submitForm_bookkeeping_witness :
  let run := submitForm_validate Stay Stay Stay requiredNameForm in
  submitCount (state (snd run)) = 1
  /\ touched (state (snd run)) = JRef 10 (Obj [("name", Prim (PBool true))]).
Proof.
  intros run.
  rewrite (submitForm_bookkeeping requiredNameForm (snd run) (fst run));
    [split; reflexivity | reflexivity | vm_compute; reflexivity].
Defined.

(** ** Pristine forms *)

Lemma isEqual_refl t : well_formed t = true -> isEqual t t = true.
Proof.
  induction t as [p | f IH | l IH] using tree_ind; intros Hwf.
  - apply prim_eqb_refl.
  - simpl in Hwf. apply andb_true_iff in Hwf as [Hnd Hall].
    apply bool_decide_eq_true in Hnd.
    simpl. rewrite Nat.eqb_refl. simpl.
    apply forallb_forall. intros [k v] Hin.
    rewrite (assoc_get_In k v f Hnd Hin).
    apply (proj1 (List.Forall_forall _ _) IH (k, v) Hin).
    apply (proj1 (forallb_forall _ _) Hall (k, v) Hin).
  - simpl in Hwf. simpl. rewrite Nat.eqb_refl. simpl.
    induction l as [|x l IHl]; [reflexivity|].
    simpl in Hwf. apply andb_true_iff in Hwf as [Hx Hl].
    apply Forall_cons in IH as [IHx IH].
    rewrite (IHx Hx). simpl. now apply IHl.
Qed.

(** X19: right after [resetForm], with or without an argument, the form is
    not dirty: the derived [isValid] is the configured [isInitialValid]
    whatever the errors were, and the derived initial values are the values
    the reset installed.  This is so on every holder that is mounted or not
    mounted yet; on an unmounted one the state update is dropped, the state
    stays as it is, and only the stored initial values are the new ones. *)
Theorem resetForm_not_dirty (h : Formik) (nextValues : jsval) :
  let v := if to_bool nextValues then nextValues
           else initialValues (props h) in
  well_formed (content v) = true ->
  let computed := getFormikComputedProps (snd (resetForm nextValues h)) in
  (if unmounted h then state (snd (resetForm nextValues h)) = state h
   else dirty computed = false
        /\ isValid computed = resolveIsInitialValid (props h))
  /\ computed_initialValues computed = v.
Proof.
  intros v Hwf computed. subst computed.
  unfold getFormikComputedProps, resetForm. monad. simpl.
  destruct (negb (didMount h) && everMounted h); simpl;
    [split; reflexivity|].
  fold v. rewrite (isEqual_refl _ Hwf). simpl. auto.
Qed.

Lemma resetForm_not_dirty_witness :
  let computed :=
    getFormikComputedProps (snd (resetForm js_undefined dirtyForm)) in
  dirty computed = false /\ isValid computed = js_bool false.
Proof.
  intros computed.
  exact (proj1 (resetForm_not_dirty dirtyForm js_undefined eq_refl)).
Defined.

(** X20: a holder as the constructor leaves it: the state is the pristine
    one over its initial values (the shared empty object when the props
    give none), the form is not dirty and its [isValid] is the configured
    [isInitialValid]; and since it is not mounted yet, [setFieldValue]
    changes nothing. *)
Theorem constructor_pristine (config : FormikConfig) (next : nat) :
  well_formed (content (initialValues config)) = true ->
  let h := constructor config next in
  state h = pristine (this_initialValues h)
  /\ (to_bool (initialValues config) = false ->
      this_initialValues h = emptyObjectRef)
  /\ dirty (getFormikComputedProps h) = false
  /\ isValid (getFormikComputedProps h) = resolveIsInitialValid config
  /\ (forall field value shouldValidate,
        setFieldValue field value shouldValidate h = (None, h)).
Proof.
  intros Hwf h. subst h.
  split; [reflexivity|].
  split; [simpl; now intros ->|].
  assert (Hrefl : isEqual
            (content (if to_bool (initialValues config)
                      then initialValues config else emptyObjectRef))
            (content (if to_bool (initialValues config)
                      then initialValues config else emptyObjectRef))
          = true).
  { apply isEqual_refl. now destruct (to_bool (initialValues config)). }
  unfold getFormikComputedProps. simpl. rewrite Hrefl. simpl.
  split; [reflexivity|]. split; [reflexivity|].
  intros field value shouldValidate.
  now apply setFieldValue_not_live.
Qed.

Lemma constructor_pristine_witness :
  dirty (getFormikComputedProps unmountedForm) = false
  /\ setFieldValue "name" (JPrim (PStr "Ann")) true unmountedForm
     = (None, unmountedForm).
Proof.
  destruct (constructor_pristine (sampleConfig blankName None None None) 10)
    as (_ & _ & Hd & _ & Hset); [reflexivity|].
  split; [exact Hd | apply Hset].
Defined.

(** X21: [componentDidUpdate] resets the form only when
    [enableReinitialize] is set and the new initial values differ in
    content from the previous ones.  Otherwise the holder is left exactly
    as it is, edits included, also when the new initial values are another
    object with the same content.  (On an unmounted holder, where React
    does not call it, the reset would store the initial values and its
    state update would be dropped.) *)
Theorem componentDidUpdate_reinitialize (prevProps : FormikConfig)
    (h : Formik) :
  let h' := snd (componentDidUpdate prevProps h) in
  let same := isEqual (content (initialValues prevProps))
                      (content (initialValues (props h))) in
  (enableReinitialize (props h) = false -> h' = h)
  /\ (same = true -> h' = h)
  /\ (enableReinitialize (props h) = true -> same = false ->
      state h' = (if unmounted h then state h
                  else pristine (initialValues (props h)))
      /\ this_initialValues h' = initialValues (props h)).
Proof.
  intros h' same. subst h' same.
  unfold componentDidUpdate. monad. simpl.
  split; [|split].
  - intros ->. reflexivity.
  - intros ->. now rewrite andb_false_r.
  - intros -> ->. simpl. unfold resetForm. monad. simpl.
    destruct (negb (didMount h) && everMounted h);
      now destruct (to_bool (initialValues (props h))).
Qed.

Lemma componentDidUpdate_reinitialize_witness :
  let sameContent := JRef 8 (content blankName) in
  snd (componentDidUpdate (sampleConfig blankName None None None)
         (reinitializingForm sameContent))
  = reinitializingForm sameContent
  /\ values (state (snd (componentDidUpdate
                           (sampleConfig blankName None None None)
                           (reinitializingForm (JRef 8 (Obj []))))))
     = JRef 8 (Obj []).
Proof.
  intros sameContent. split.
  - apply (componentDidUpdate_reinitialize
             (sampleConfig blankName None None None)
             (reinitializingForm sameContent)).
    reflexivity.
  - destruct (componentDidUpdate_reinitialize
                (sampleConfig blankName None None None)
                (reinitializingForm (JRef 8 (Obj [])))) as (_ & _ & Hreset).
    destruct Hreset as [Hstate _]; [reflexivity | reflexivity |].
    now rewrite Hstate.
Defined.

(** ** Reset handlers *)

(** X22: a reset handler is called once, with the current values and the
    actions; when the promise it returns is rejected, no reset ever
    happens: state and stored initial values stay as they were, whatever
    becomes of the holder in the meantime. *)
Theorem handleReset_rejected_never_resets (h : Formik) (l : Lifecycle)
    (handler : jsval -> FormikActions -> External UserResult)
    (p n : nat) (e : jsval) :
  onReset (props h) = Some handler ->
  handler (values (state h)) getFormikActions (next_ref h)
  = (Pending p (Rejected e), n) ->
  let h' := snd (handleReset_run l h) in
  state h' = state h
  /\ this_initialValues h' = this_initialValues h
  /\ trace h' = trace h ++ [OnReset (values (state h)) getFormikActions].
Proof.
  intros Hreset Hcall.
  unfold handleReset_run, handleReset. monad. simpl.
  rewrite Hreset. simpl. rewrite Hcall. simpl.
  destruct l; simpl; auto.
Qed.

Lemma handleReset_rejected_never_resets_witness :
  let h' := snd (handleReset_run Stay rejectedResetForm) in
  values (state h') = filledName
  /\ trace h' = [OnReset filledName getFormikActions].
Proof.
  intros h'.
  destruct (handleReset_rejected_never_resets rejectedResetForm Stay
              (fun _ _ n => (Pending n (Rejected (JPrim (PStr "no"))), S n))
              10 11 (JPrim (PStr "no")))
    as (Hstate & _ & Htrace); [reflexivity | reflexivity |].
  fold h' in Hstate, Htrace. split.
  - now rewrite Hstate.
  - exact Htrace.
Defined.

(** ** Setters by path *)

Lemma toPath_member (field : string) :
  toPath ("values." ++ field) = "values" :: toPath field
  /\ toPath ("errors." ++ field) = "errors" :: toPath field
  /\ toPath ("touched." ++ field) = "touched" :: toPath field.
Proof. repeat split. Qed.

Lemma getStateUpdater_values field value s n :
  getStateUpdater ("values." ++ field) value s n
  = match toPath field with
    | [] => (with_values value s, n)
    | rest =>
        (with_values
           (JRef n (setIn_path (content (values s)) rest (content value))) s,
         S n)
    end.
Proof.
  unfold getStateUpdater.
  rewrite (proj1 (toPath_member field)).
  simpl. now destruct (toPath field).
Qed.

Lemma getStateUpdater_errors field value s n :
  getStateUpdater ("errors." ++ field) value s n
  = match toPath field with
    | [] => (with_errors value s, n)
    | rest =>
        (with_errors
           (JRef n (setIn_path (content (errors s)) rest (content value))) s,
         S n)
    end.
Proof.
  unfold getStateUpdater.
  rewrite (proj1 (proj2 (toPath_member field))).
  simpl. now destruct (toPath field).
Qed.

Lemma getStateUpdater_touched field value s n :
  getStateUpdater ("touched." ++ field) value s n
  = match toPath field with
    | [] => (with_touched value s, n)
    | rest =>
        (with_touched
           (JRef n (setIn_path (content (touched s)) rest (content value))) s,
         S n)
    end.
Proof.
  unfold getStateUpdater.
  rewrite (proj2 (proj2 (toPath_member field))).
  simpl. now destruct (toPath field).
Qed.

(** X23: [setFieldValue] on a mounted holder: reading the path back from
    the new values gives the value written, no other member of the state
    changes, and a validation of the updated values is requested exactly
    when [validateOnChange] and [shouldValidate] both hold. *)
Theorem setFieldValue_live (h : Formik) (field : string) (value : jsval)
    (shouldValidate : bool) :
  didMount h = true ->
  let request := fst (setFieldValue field value shouldValidate h) in
  let h' := snd (setFieldValue field value shouldValidate h) in
  getIn (content (values (state h'))) field = content value
  /\ state h' = with_values (values (state h')) (state h)
  /\ request = if validateOnChange (props h) && shouldValidate
               then Some (values (state h')) else None.
Proof.
  intros Hlive. unfold setFieldValue. monad. live Hlive.
  rewrite getStateUpdater_values. unfold getIn.
  destruct (toPath field) as [|k rest] eqn:Hp; simpl; live Hlive;
    destruct (validateOnChange (props h) && shouldValidate); simpl;
    rewrite ?set_prop_truthy, ?get_set_prop, ?getIn_setIn_path; auto.
Qed.

Lemma setFieldValue_live_witness :
  let h' := snd (setFieldValue "address.city" (JPrim (PStr "Oslo")) true
                   requiredNameForm) in
  getIn (content (values (state h'))) "address.city" = str "Oslo".
Proof.
  intros h'.
  destruct (setFieldValue_live requiredNameForm "address.city"
              (JPrim (PStr "Oslo")) true) as (Hget & _); [reflexivity|].
  exact Hget.
Defined.

(** X24: [setFieldTouched] and [setFieldError] do not test the liveness
    flag: on every holder that is mounted or not mounted yet, and for a
    path of at least one segment, the path reads back what was written (an
    [undefined] message reads back as [undefined]) and the rest of the state
    is kept; [setFieldTouched] requests a validation of the current values
    exactly when [validateOnBlur] and [shouldValidate] both hold,
    [setFieldError] makes no outside call. *)
Theorem setFieldTouched_setFieldError_write (h : Formik) (field : string)
    (isTouched shouldValidate : bool) (message : jsval) :
  unmounted h = false ->
  toPath field <> [] ->
  let request := fst (setFieldTouched field isTouched shouldValidate h) in
  let h1 := snd (setFieldTouched field isTouched shouldValidate h) in
  let h2 := snd (setFieldError field message h) in
  (getIn (content (touched (state h1))) field = Prim (PBool isTouched)
   /\ state h1 = with_touched (touched (state h1)) (state h)
   /\ request = if validateOnBlur (props h) && shouldValidate
                then Some (values (state h)) else None)
  /\ (getIn (content (errors (state h2))) field = content message
      /\ state h2 = with_errors (errors (state h2)) (state h)
      /\ trace h2 = trace h).
Proof.
  intros Hheld _. split.
  - unfold setFieldTouched. monad. live Hheld.
    rewrite getStateUpdater_touched. unfold getIn.
    destruct (toPath field) as [|k rest] eqn:Hp; simpl; live Hheld;
      destruct (validateOnBlur (props h) && shouldValidate); simpl;
      rewrite ?set_prop_truthy, ?get_set_prop, ?getIn_setIn_path; auto.
  - unfold setFieldError. monad. live Hheld.
    rewrite getStateUpdater_errors. unfold getIn.
    destruct (toPath field) as [|k rest] eqn:Hp; simpl;
      rewrite ?set_prop_truthy, ?get_set_prop, ?getIn_setIn_path; auto.
Qed.

Lemma setFieldTouched_setFieldError_write_witness :
  didMount unmountedForm = false
  /\ getIn (content (touched (state
              (snd (setFieldTouched "name" true true unmountedForm)))))
        "name"
     = Prim (PBool true)
  /\ getIn (content (errors (state
              (snd (setFieldError "name" (JPrim (PStr "Required"))
                      unmountedForm)))))
        "name"
     = str "Required".
Proof.
  destruct (setFieldTouched_setFieldError_write unmountedForm "name" true
              true (JPrim (PStr "Required")))
    as ((Htouched & _) & (Herror & _));
    [reflexivity | vm_compute; discriminate |].
  split; [reflexivity|]. split; [exact Htouched | exact Herror].
Defined.

(** X30: [setValues] and [setTouched] do not test the liveness flag: on
    every holder that is mounted or not mounted yet they replace their
    member of the state and keep the rest; [setValues] requests a validation
    of the new values when [validateOnChange] is set, [setTouched] one of
    the current values when [validateOnBlur] is set.  Before the mount,
    then, they write where [setFieldValue] does nothing. *)
Theorem setValues_setTouched_write (h : Formik)
    (nextValues nextTouched : jsval) :
  unmounted h = false ->
  let written := setValues nextValues h in
  let marked := setTouched nextTouched h in
  (state (snd written) = with_values nextValues (state h)
   /\ fst written = if validateOnChange (props h) then Some nextValues
                    else None)
  /\ (state (snd marked) = with_touched nextTouched (state h)
      /\ fst marked = if validateOnBlur (props h)
                      then Some (values (state h)) else None)
  /\ (didMount h = false ->
      forall field value shouldValidate,
        setFieldValue field value shouldValidate h = (None, h)).
Proof.
  intros Hheld. repeat split.
  - unfold setValues. monad. live Hheld.
    now destruct (validateOnChange (props h)).
  - unfold setValues. monad. live Hheld.
    now destruct (validateOnChange (props h)).
  - unfold setTouched. monad. live Hheld.
    now destruct (validateOnBlur (props h)).
  - unfold setTouched. monad. live Hheld.
    now destruct (validateOnBlur (props h)).
  - intros Hdead field value shouldValidate.
    now apply setFieldValue_not_live.
Qed.

Lemma setValues_setTouched_write_witness :
  didMount unmountedForm = false
  /\ values (state (snd (setValues filledName unmountedForm))) = filledName
  /\ setFieldValue "name" (JPrim (PStr "Ann")) true unmountedForm
     = (None, unmountedForm).
Proof.
  destruct (setValues_setTouched_write unmountedForm filledName filledName)
    as ((Hwritten & _) & _ & Hignored); [reflexivity|].
  split; [reflexivity|]. split.
  - rewrite Hwritten. reflexivity.
  - apply Hignored. reflexivity.
Defined.

(** ** [validateField] *)

Lemma getStateUpdater_isValidating b s n :
  getStateUpdater "isValidating" (js_bool b) s n = (with_isValidating b s, n).
Proof. reflexivity. Qed.

Lemma validateField_callback_live field e h :
  didMount h = true ->
  let h' := snd (validateField_callback field e h) in
  getIn (content (errors (state h'))) field = content e
  /\ state h'
     = with_errors (errors (state h')) (with_isValidating false (state h))
  /\ trace h' = trace h /\ didMount h' = true.
Proof.
  intros Hlive. unfold validateField_callback. monad. live Hlive.
  rewrite ?getStateUpdater_isValidating. live Hlive.
  rewrite getStateUpdater_errors. unfold getIn.
  destruct (toPath field) as [|k rest] eqn:Hp; simpl;
    rewrite ?set_prop_truthy, ?get_set_prop, ?getIn_setIn_path; auto.
Qed.

Lemma validateField_run_registered h l field validate outcome n :
  didMount h = true ->
  assoc_get field (fields h) = Some {| field_validate := Some validate |} ->
  validate (getIn (content (values (state h))) field) (next_ref h)
  = (outcome, n) ->
  exists h0,
    snd (validateField_run l field h)
    = match outcome with
      | Normal (Pending _ _) =>
          snd (validateField_callback field (outcomeValue outcome)
                 (snd (lifecycle l h0)))
      | _ =>
          snd (lifecycle l
                 (snd (validateField_callback field (outcomeValue outcome)
                         h0)))
      end
    /\ didMount h0 = didMount h
    /\ values (state h0) = values (state h)
    /\ errors (state h0) = errors (state h)
    /\ isValidating (state h0)
       = match outcome with
         | Normal (Pending _ _) => true
         | _ => isValidating (state h)
         end
    /\ trace h0
       = trace h ++ [FieldValidate field
                       (getIn (content (values (state h))) field)].
Proof.
  intros Hlive Hreg Hcall.
  unfold validateField_run, validateField, runSingleFieldLevelValidation.
  monad. rewrite Hreg. unfold modify. cbv beta iota.
  cbn [next_ref set_trace]. rewrite Hcall.
  destruct outcome as [[v | p [x | e]] | e];
    cbn [outcomeValue didMount everMounted set_next_ref set_trace];
    rewrite ?Hlive; cbn [negb andb].
  - match goal with
    | |- context [validateField_callback field v ?H] => exists H
    end.
    split; [|repeat split; simpl; try assumption].
    destruct (validateField_callback field v _) as [[] h1].
    now destruct l.
  - rewrite getStateUpdater_isValidating.
    match goal with |- context [lifecycle l ?H] => exists H end.
    split; [|repeat split; simpl; try assumption].
    now destruct (lifecycle l _) as [[] h1].
  - rewrite getStateUpdater_isValidating.
    match goal with |- context [lifecycle l ?H] => exists H end.
    split; [|repeat split; simpl; try assumption].
    now destruct (lifecycle l _) as [[] h1].
  - match goal with
    | |- context [validateField_callback field e ?H] => exists H
    end.
    split; [|repeat split; simpl; try assumption].
    destruct (validateField_callback field e _) as [[] h1].
    now destruct l.
Qed.

(** X25: [validateField] on a registered field of a mounted holder calls
    the field's validator once, with the value at the field's path, and
    stores its outcome as the field's error: the value returned or thrown,
    or the value its promise settles with, fulfilled or rejected alike.
    [isValidating] ends [false]; the values are not touched. *)
Theorem validateField_stores_outcome (h : Formik) (field : string)
    (validate : tree -> External Completion) (outcome : Completion)
    (n : nat) :
  didMount h = true ->
  assoc_get field (fields h) = Some {| field_validate := Some validate |} ->
  validate (getIn (content (values (state h))) field) (next_ref h)
  = (outcome, n) ->
  let h' := snd (validateField_run Stay field h) in
  getIn (content (errors (state h'))) field = content (outcomeValue outcome)
  /\ isValidating (state h') = false
  /\ values (state h') = values (state h)
  /\ trace h'
     = trace h ++ [FieldValidate field
                     (getIn (content (values (state h))) field)].
Proof.
  intros Hlive Hreg Hcall h'. subst h'.
  destruct (validateField_run_registered h Stay field validate outcome n
              Hlive Hreg Hcall) as (h0 & Hrun & D0 & V0 & _ & _ & T0).
  rewrite Hlive in D0.
  destruct (validateField_callback_live field (outcomeValue outcome) h0 D0)
    as (Hget & Hstate & Htrace & _).
  assert (E : snd (validateField_run Stay field h)
              = snd (validateField_callback field (outcomeValue outcome) h0)).
  { rewrite Hrun. now destruct outcome as [[v | p s] | e]. }
  rewrite E, Hget, Hstate, Htrace, T0. simpl. auto.
Qed.

Lemma validateField_stores_outcome_witness :
  let h' := snd (validateField_run Stay "name" takenNameForm) in
  getIn (content (errors (state h'))) "name" = str "taken"
  /\ isValidating (state h') = false.
Proof.
  intros h'.
  destruct (validateField_stores_outcome takenNameForm "name"
              (fun _ n =>
                 (Normal (Pending n (Rejected (JPrim (PStr "taken")))), S n))
              (Normal (Pending 10 (Rejected (JPrim (PStr "taken"))))) 11)
    as (Hget & Hv & _); [reflexivity | reflexivity | reflexivity |].
  split; [exact Hget | exact Hv].
Defined.

(** X26: [validateField] on a path with no registered field calls no
    validator: the [TypeError] of the failed property access is caught and,
    on a mounted holder, stored as the error of that path. *)
Theorem validateField_unregistered (h : Formik) (field : string) :
  didMount h = true ->
  assoc_get field (fields h) = None ->
  let h' := snd (validateField_run Stay field h) in
  getIn (content (errors (state h'))) field = Obj [("name", str "TypeError")]
  /\ isValidating (state h') = false
  /\ values (state h') = values (state h)
  /\ trace h' = trace h.
Proof.
  intros Hlive Hreg h'. subst h'.
  unfold validateField_run, validateField, runSingleFieldLevelValidation.
  monad. rewrite Hreg. cbn [lifecycle].
  match goal with
  | |- context [validateField_callback field ?e ?H] =>
      destruct (validateField_callback_live field e H Hlive)
        as (Hget & Hstate & Htrace & _);
      destruct (validateField_callback field e H) as [[] h1]
  end.
  simpl in Hget, Hstate, Htrace |- *.
  rewrite Hget, Hstate, Htrace. simpl. auto.
Qed.

Lemma validateField_unregistered_witness :
  let h' := snd (validateField_run Stay "email" requiredNameForm) in
  getIn (content (errors (state h'))) "email"
  = Obj [("name", str "TypeError")]
  /\ trace h' = [].
Proof.
  intros h'.
  destruct (validateField_unregistered requiredNameForm "email")
    as (Hget & _ & _ & Htrace); [reflexivity | reflexivity |].
  split; [exact Hget | exact Htrace].
Defined.

Lemma validateField_callback_not_live field e h :
  didMount h = false -> validateField_callback field e h = (tt, h).
Proof.
  intros Hdead. unfold validateField_callback. monad. now rewrite Hdead.
Qed.

(** X27: on a mounted holder, when the validator of [validateField]
    returns a promise, [isValidating] is set at once; if the holder is
    unmounted before the promise settles, the callback does nothing: the
    errors stay as they were and [isValidating] is left [true]. *)
Theorem validateField_unmounted_while_pending (h : Formik) (field : string)
    (validate : tree -> External Completion) (p n : nat) (s : Settled) :
  didMount h = true ->
  assoc_get field (fields h) = Some {| field_validate := Some validate |} ->
  validate (getIn (content (values (state h))) field) (next_ref h)
  = (Normal (Pending p s), n) ->
  let h' := snd (validateField_run Unmount field h) in
  errors (state h') = errors (state h)
  /\ isValidating (state h') = true
  /\ didMount h' = false.
Proof.
  intros Hlive Hreg Hcall h'. subst h'.
  destruct (validateField_run_registered h Unmount field validate
              (Normal (Pending p s)) n Hlive Hreg Hcall)
    as (h0 & Hrun & _ & _ & E0 & I0 & _).
  rewrite Hrun, validateField_callback_not_live by reflexivity.
  simpl. auto.
Qed.

Lemma validateField_unmounted_while_pending_witness :
  let h' := snd (validateField_run Unmount "name" takenNameForm) in
  errors (state h') = emptyObjectRef /\ isValidating (state h') = true.
Proof.
  intros h'.
  destruct (validateField_unmounted_while_pending takenNameForm "name"
              (fun _ n =>
                 (Normal (Pending n (Rejected (JPrim (PStr "taken")))), S n))
              10 11 (Rejected (JPrim (PStr "taken"))))
    as (He & Hv & _); [reflexivity | reflexivity | reflexivity |].
  split; [exact He | exact Hv].
Defined.

(** ** Change and blur events *)

Lemma setFieldValue_reads_back h field value shouldValidate :
  didMount h = true ->
  getIn (content (values (state
           (snd (setFieldValue field value shouldValidate h))))) field
  = content value.
Proof.
  intros Hlive. unfold setFieldValue. monad. live Hlive.
  rewrite getStateUpdater_values. unfold getIn.
  destruct (toPath field) as [|k rest] eqn:Hp; simpl; live Hlive;
    destruct (validateOnChange (props h) && shouldValidate); simpl;
    rewrite ?set_prop_truthy, ?get_set_prop, ?getIn_setIn_path; auto.
Qed.

(** X28: a change event on a mounted holder stores, at the path given to
    the handler or else at the target's name or else its id, the value the
    event stands for: the [checked] flag for a checkbox, the parsed number
    (the empty string when it does not parse) for a number or range input,
    the target's value otherwise; a text passed in place of an event is
    stored at the handler's path. *)
Theorem executeChange_stores (parseFloat : jsval -> option prim)
    (h : Formik) (target : EventTarget) (maybePath : option string)
    (text path : string) :
  didMount h = true ->
  let field := targetField maybePath target in
  let numeric := contains "number" (target_type target)
                 || contains "range" (target_type target) in
  let stored :=
    getIn (content (values (state
             (snd (executeChange parseFloat (ChangeEvent target) maybePath
                     h))))) field in
  (field <> "" ->
   (numeric = false -> contains "checkbox" (target_type target) = true ->
    stored = Prim (PBool (target_checked target)))
   /\ (numeric = false -> contains "checkbox" (target_type target) = false ->
       stored = content (target_value target))
   /\ (numeric = true -> parseFloat (target_value target) = None ->
       stored = str "")
   /\ (forall parsed, numeric = true ->
       parseFloat (target_value target) = Some parsed ->
       stored = Prim parsed))
  /\ (path <> "" ->
      targetField (Some path) target = path
      /\ getIn (content (values (state
                  (snd (executeChange parseFloat (TextValue text) (Some path)
                          h))))) path
         = str text).
Proof.
  intros Hlive field numeric stored. split.
  - intros Hfield. apply String.eqb_neq in Hfield.
    assert (Hstored : stored = content (changedValue parseFloat target)).
    { subst stored. unfold executeChange. fold field. rewrite Hfield.
      now apply setFieldValue_reads_back. }
    rewrite Hstored. unfold changedValue. fold numeric.
    repeat split.
    + intros -> ->. reflexivity.
    + intros -> ->. reflexivity.
    + intros -> ->. reflexivity.
    + intros parsed -> ->. reflexivity.
  - intros Hpath. apply String.eqb_neq in Hpath.
    unfold targetField, executeChange. simpl. rewrite Hpath. simpl.
    split; [reflexivity|].
    now rewrite setFieldValue_reads_back.
Qed.

Lemma executeChange_stores_witness :
  getIn (content (values (state
           (snd (executeChange (fun _ => None) (ChangeEvent (agreeBox true))
                   None requiredNameForm))))) "agree"
  = Prim (PBool true).
Proof.
  destruct (executeChange_stores (fun _ => None) requiredNameForm
              (agreeBox true) None "" "agree") as [Hevent _];
    [reflexivity|].
  destruct Hevent as (Hbox & _); [discriminate|].
  apply Hbox; reflexivity.
Defined.

(** X29: an event whose target has neither name nor id, handled without a
    path: [executeChange] ignores it, the holder stays as it is;
    [executeBlur] has no such test and goes on to [setFieldTouched], so a
    validation of the current values is requested when [validateOnBlur] is
    set (unless the holder is unmounted, when update and request are
    dropped). *)
Theorem events_without_identifier (parseFloat : jsval -> option prim)
    (h : Formik) (target : EventTarget) :
  target_name target = "" ->
  target_id target = "" ->
  executeChange parseFloat (ChangeEvent target) None h = (None, h)
  /\ fst (executeBlur target None h)
     = (if unmounted h then None
        else if validateOnBlur (props h) then Some (values (state h))
             else None)
  /\ values (state (snd (executeBlur target None h))) = values (state h).
Proof.
  intros Hname Hid.
  unfold executeChange, executeBlur, targetField. rewrite Hname, Hid. simpl.
  split; [reflexivity|].
  unfold setFieldTouched. monad.
  rewrite getStateUpdater_touched. simpl.
  destruct (negb (didMount h) && everMounted h); simpl;
    [split; reflexivity|].
  rewrite andb_true_r.
  destruct (validateOnBlur (props h)); split; reflexivity.
Qed.

Lemma events_without_identifier_witness :
  executeChange (fun _ => None) (ChangeEvent anonymousInput) None
    requiredNameForm
  = (None, requiredNameForm)
  /\ fst (executeBlur anonymousInput None requiredNameForm) = Some blankName.
Proof.
  destruct (events_without_identifier (fun _ => None) requiredNameForm
              anonymousInput) as (Hchange & Hblur & _);
    [reflexivity | reflexivity |].
  split; [exact Hchange | exact Hblur].
Defined.
